(** * bench/pandas_compare.py: the benchmark companion of bun_panda

    A shallow embedding of the deterministic dataset generator ([lcg],
    [build_dataset]) and of the timing harness ([run_case], [median], [main])
    together with the properties the specification states about them.

    Python floats are IEEE-754 binary64 numbers, modelled by the Standard
    Library's executable specification [SpecFloat] at precision 53 and
    maximal exponent 1024.  Python integers are unbounded: [Z].  Code that
    can raise returns a [result]; code that touches the closure cell of a
    generator, the clock, an operation under test or the file system runs in
    the state monad [M] over a [world]. *)

From Stdlib Require Import ZArith QArith Lia List String Ascii Bool.
From Stdlib Require Import Floats.SpecFloat.
From Stdlib Require Import DecimalString.
From Stdlib Require DecimalZ DecimalPos.
From Stdlib Require Import Sorting.Sorted Sorting.Permutation.
From stdpp Require Import base list strings gmap.

Open Scope string_scope.
Open Scope list_scope.
Open Scope Z_scope.

(** ** Exceptions *)

Inductive exn : Type :=
| ZeroDivisionError
| OverflowError
| ValueError
| IndexError
| KeyError (key : string)
| NameError
| OSError
| RuntimeError (msg : string).

Inductive result (A : Type) : Type :=
| Ok (a : A)
| Raise (e : exn).
Arguments Ok {A} a.
Arguments Raise {A} e.

#[global] Instance result_ret : MRet result := fun _ a => Ok a.
#[global] Instance result_bind : MBind result := fun _ _ f r =>
  match r with
  | Ok a => f a
  | Raise e => Raise e
  end.
#[global] Instance result_fmap : FMap result := fun _ _ f r =>
  match r with
  | Ok a => Ok (f a)
  | Raise e => Raise e
  end.

(** ** Binary64 floats *)

Definition float := spec_float.

Module Float.

Definition prec : Z := 53.
Definition emax : Z := 1024.

Definition add : float -> float -> float := SFadd prec emax.
Definition sub : float -> float -> float := SFsub prec emax.
Definition mul : float -> float -> float := SFmul prec emax.
Definition div : float -> float -> float := SFdiv prec emax.
Definition ltb : float -> float -> bool := SFltb.

Definition is_nan (x : float) : bool :=
  match x with S754_nan => true | _ => false end.

Definition is_zero (x : float) : bool :=
  match x with S754_zero _ => true | _ => false end.

Definition is_finite (x : float) : bool :=
  match x with S754_zero _ | S754_finite _ _ _ => true | _ => false end.

(** The rational a finite float denotes (0 for the others). *)
Definition to_Q (x : float) : Q :=
  match x with
  | S754_finite s m e =>
      let z := cond_Zopp s (Zpos m) in
      if 0 <=? e then inject_Z (z * 2 ^ e) else Qmake z (Z.to_pos (2 ^ (- e)))
  | _ => 0%Q
  end.

(** Literals of the source. *)
Definition zero : float := S754_zero false.                       (* 0.0 *)
Definition half : float := S754_finite false 4503599627370496 (-53).   (* 0.5 *)
Definition two : float := S754_finite false 4503599627370496 (-51).    (* 2.0 *)
Definition thousand : float := S754_finite false 8796093022208000 (-43). (* 1000.0 *)

End Float.

(** ** The Python primitives the source uses *)

(** [float(n)] and the implicit conversion of an int operand: correctly
    rounded, [OverflowError] when out of range. *)
Definition float_of_int (n : Z) : result float :=
  match binary_normalize Float.prec Float.emax n 0 false with
  | S754_infinity _ => Raise OverflowError
  | f => Ok f
  end.

(** [a / b] on ints: the correctly rounded quotient. *)
Definition int_truediv (a b : Z) : result float :=
  if b =? 0 then Raise ZeroDivisionError
  else
    let neg := xorb (a <? 0) (b <? 0) in
    match Z.abs a with
    | Zpos ma =>
        match Float.div (S754_finite neg ma 0)
                        (S754_finite false (Z.to_pos (Z.abs b)) 0) with
        | S754_infinity _ => Raise OverflowError
        | f => Ok f
        end
    | _ => Ok (S754_zero neg)
    end.

(** [x / y] on floats. *)
Definition float_truediv (x y : float) : result float :=
  if Float.is_zero y then Raise ZeroDivisionError else Ok (Float.div x y).

(** [x * n] and [n * x] with one int operand. *)
Definition mul_float_int (x : float) (n : Z) : result float :=
  y ← float_of_int n; Ok (Float.mul x y).
Definition mul_int_float (n : Z) (x : float) : result float :=
  y ← float_of_int n; Ok (Float.mul y x).

(** [x / n] with an int divisor. *)
Definition truediv_float_int (x : float) (n : Z) : result float :=
  y ← float_of_int n; float_truediv x y.

(** [int(x)]: truncation towards zero. *)
Definition int_of_float (x : float) : result Z :=
  match x with
  | S754_zero _ => Ok 0
  | S754_infinity _ => Raise OverflowError
  | S754_nan => Raise ValueError
  | S754_finite s m e =>
      Ok (cond_Zopp s (if 0 <=? e then Zpos m * 2 ^ e else Zpos m / 2 ^ (- e)))
  end.

(** [a / b] rounded to the nearest integer, ties to even ([0 <= a], [0 < b]). *)
Definition div_half_even (a b : Z) : Z :=
  let q := a / b in
  let r := a mod b in
  match 2 * r ?= b with
  | Lt => q
  | Gt => q + 1
  | Eq => if Z.even q then q else q + 1
  end.

(** [round(x, ndigits)] for [0 <= ndigits]: the exact value of [x] is rounded
    half-even to [ndigits] decimals, and the decimal obtained is converted
    back to the nearest float. *)
Definition round (x : float) (ndigits : Z) : float :=
  match x with
  | S754_finite s m e =>
      let scale := 10 ^ ndigits in
      let k := if 0 <=? e then Zpos m * 2 ^ e * scale
               else div_half_even (Zpos m * scale) (2 ^ (- e)) in
      match k with
      | Zpos kp => Float.div (S754_finite s kp 0) (S754_finite false (Z.to_pos scale) 0)
      | _ => S754_zero s
      end
  | _ => x
  end.

(** [len(l)] *)
Definition len {A} (l : list A) : Z := Z.of_nat (length l).

(** [l[i]]: negative indices count from the end, [IndexError] out of range. *)
Definition getitem {A} (l : list A) (i : Z) : result A :=
  let j := if i <? 0 then i + len l else i in
  if (0 <=? j) && (j <? len l) then
    match l !! Z.to_nat j with
    | Some x => Ok x
    | None => Raise IndexError
    end
  else Raise IndexError.

(** [range(n)] *)
Definition range (n : Z) : list Z := map Z.of_nat (seq 0 (Z.to_nat n)).

(** [str(n)], as an f-string renders an int. *)
Definition str (n : Z) : string := NilZero.string_of_int (Z.to_int n).

(** [sorted(values)] on floats.  Python's sort is stable and compares with
    [<] only; on a list free of NaN every stable sort returns the list that
    this insertion sort returns. *)
Fixpoint insert (x : float) (l : list float) : list float :=
  match l with
  | [] => [x]
  | y :: l' => if Float.ltb x y then x :: y :: l' else y :: insert x l'
  end.

Definition sorted (values : list float) : list float :=
  fold_left (fun acc x => insert x acc) values [].

(** ** Python values and dicts *)

Inductive pyval : Type :=
| VNone
| VBool (b : bool)
| VInt (n : Z)
| VFloat (x : float)
| VStr (s : string).

(** A dict with string keys, in insertion order. *)
Definition dict := list (string * pyval).

Fixpoint dict_get (k : string) (d : dict) : option pyval :=
  match d with
  | [] => None
  | (k', v) :: d' => if String.eqb k' k then Some v else dict_get k d'
  end.

(** [d[k] = v]: an existing key keeps its position. *)
Fixpoint dict_set (k : string) (v : pyval) (d : dict) : dict :=
  match d with
  | [] => [(k, v)]
  | (k', v') :: d' =>
      if String.eqb k' k then (k, v) :: d' else (k', v') :: dict_set k v d'
  end.

(** [pd.DataFrame(rows)] keeps the rows in order. *)
Definition DataFrame := list dict.

(** ** The world outside the source *)

(** One entry of [results] and the payload [main] writes. *)
Record entry := Entry {
  e_case : string;
  e_dataset : string;
  pandasAvgMs : float;
  pandasRoundAverages : list float }.

Record payload := Payload {
  generatedAt : string;
  p_rows : Z;
  p_iterations : Z;
  p_rounds : Z;
  p_cases : Z;
  p_results : list entry }.

(** Where in [run_case] an operation is invoked: the warmup loop or the
    timed loop. *)
Inductive phase := Warmup | Timed.

(** What a run does, in order.  The log is an observer: no definition reads
    it. *)
Inductive event : Type :=
| EvCall (ph : phase) (name : string) (out : option Z)
| EvClock (t : float)
| EvWrite (path : string) (p : payload)
| EvPrint (line : string).

Record world := World {
  cells : list Z;      (* the closure cells of the generators made so far *)
  calls : nat;         (* invocations of operations under test so far *)
  reads : nat;         (* readings of [time.perf_counter] so far *)
  log : list event }.

(** What the source takes from its environment: the clock, the library
    operations, the file system, and two builtins on floats. *)
Record host := Host {
  perf_counter_at : nat -> float;   (* the n-th reading of the clock *)
  utc_now : string;                 (* strftime(..., gmtime()) *)
  writable : string -> bool;        (* makedirs, open and dump succeed *)
  py_sum : list float -> float;     (* sum(times) *)
  format_2f : float -> string;      (* f"{x:.2f}" *)
  pandas : string -> DataFrame -> nat -> option Z }.
                                    (* the lambda of a case, on a dataset, at
                                       its n-th invocation; None is None *)

Definition M (A : Type) : Type := world -> result A * world.

#[global] Instance M_ret : MRet M := fun _ a w => (Ok a, w).
#[global] Instance M_bind : MBind M := fun _ _ f c w =>
  match c w with
  | (Ok a, w') => f a w'
  | (Raise e, w') => (Raise e, w')
  end.

Definition lift {A} (r : result A) : M A := fun w => (r, w).
Definition raise {A} (e : exn) : M A := fun w => (Raise e, w).

Definition emit (ev : event) : M unit := fun w =>
  (Ok tt, World (cells w) (calls w) (reads w) (log w ++ [ev])).

(** [for x in xs: s = body(x, s)] *)
Fixpoint for_each {A S} (xs : list A) (body : A -> S -> M S) (s : S) : M S :=
  match xs with
  | [] => mret s
  | x :: xs' => s' ← body x s; for_each xs' body s'
  end.

(** ** [lcg] *)

Definition new_cell (v : Z) : M nat := fun w =>
  (Ok (length (cells w)), World (cells w ++ [v]) (calls w) (reads w) (log w)).

Definition load (loc : nat) : M Z := fun w =>
  match cells w !! loc with
  | Some v => (Ok v, w)
  | None => (Raise NameError, w)
  end.

Definition store (loc : nat) (v : Z) : M unit := fun w =>
  (Ok tt, World (<[loc := v]> (cells w)) (calls w) (reads w) (log w)).

Definition rnd (state : nat) : M float :=
  s ← load state;
  let s' := Z.land (1664525 * s + 1013904223) 0xFFFFFFFF in
  _ ← store state s';
  lift (int_truediv s' (2 ^ 32)).

Definition lcg (seed : Z) : M (M float) :=
  state ← new_cell (Z.land seed 0xFFFFFFFF);
  mret (rnd state).

(** ** [build_dataset] *)

Definition groups : list string := ["A"; "B"; "C"; "D"; "E"; "F"].
Definition cities : list string := ["Austin"; "Seattle"; "Boston"; "Denver"; "Miami"].
Definition segments : list string := ["consumer"; "enterprise"; "startup"].

(** The dict literal of one row and, when [wide], its ten extra keys. *)
Definition make_row (skew wide high_cardinality include_missing : bool)
    (idx value : Z) (weight : float) : result dict :=
  group ← (if skew && (idx mod 100 <? 70) then Ok "A"
           else getitem groups (idx mod len groups));
  city ← (if include_missing && (idx mod 23 =? 0) then Ok VNone
          else VStr <$> getitem cities (idx mod len cities));
  segment ← (if include_missing && (idx mod 31 =? 0) then Ok VNone
             else VStr <$> getitem segments (idx mod len segments));
  revenue ← (p ← mul_int_float value weight; Ok (round p 2));
  let row : dict :=
    [ ("id", VInt idx);
      ("group", VStr group);
      ("city", city);
      ("segment", segment);
      ("value", VInt value);
      ("weight", VFloat weight);
      ("revenue", VFloat revenue);
      ("active", VBool (idx mod 3 =? 0));
      ("bucket", VStr (if value >? 700 then "high"
                       else if value >? 350 then "mid" else "low"));
      ("user_key", VStr (if high_cardinality then "u_" +:+ str idx
                         else "u_" +:+ str (idx mod 120)));
      ("session_key", VStr (if high_cardinality then "s_" +:+ str (idx * 7)
                            else "s_" +:+ str (idx mod 300))) ] in
  Ok (if wide
      then fold_left (fun row i =>
             dict_set ("extra_" +:+ str i) (VInt ((value + i) mod (50 + i))) row)
             (range 10) row
      else row).

(** The body of the loop [for idx in range(row_count)]: two draws, one row. *)
Definition row_body (skew wide high_cardinality include_missing : bool)
    (rnd : M float) (idx : Z) (rows : list dict) : M (list dict) :=
  x ← rnd;
  value ← lift (y ← mul_float_int x 1000; int_of_float y);
  x' ← rnd;
  weight ← lift (y ← mul_float_int x' 5; Ok (round (Float.add y Float.half) 2));
  row ← lift (make_row skew wide high_cardinality include_missing idx value weight);
  mret (rows ++ [row]).

Definition build_dataset (row_count : Z)
    (skew wide high_cardinality include_missing : bool) : M DataFrame :=
  rnd ← lcg 42;
  rows ← for_each (range row_count)
            (row_body skew wide high_cardinality include_missing rnd) [];
  mret rows.

(** ** [median] *)

Definition median (values : list float) : result float :=
  match values with
  | [] => Ok Float.zero
  | _ =>
      let values := sorted values in
      let mid := len values / 2 in
      if len values mod 2 =? 1 then getitem values mid
      else
        a ← getitem values (mid - 1);
        b ← getitem values mid;
        float_truediv (Float.add a b) Float.two
  end.

(** ** [run_case] and [main] *)

Record case := Case {
  name : string;
  dataset : string;
  fn : DataFrame -> nat -> option Z }.

Record args := Args {
  rows : Z;
  iters : Z;
  rounds : Z;
  json_out : string }.

Section Harness.

Variable H : host.

(** [time.perf_counter()] *)
Definition perf_counter : M float := fun w =>
  let t := perf_counter_at H (reads w) in
  (Ok t, World (cells w) (calls w) (S (reads w)) (log w ++ [EvClock t])).

(** Calling an operation under test: what it returns may depend on how often
    operations were called before. *)
Definition invoke (f : nat -> option Z) : M (option Z) := fun w =>
  (Ok (f (calls w)), World (cells w) (S (calls w)) (reads w) (log w)).

(** The body of the timed loop [for _ in range(iterations)]. *)
Definition timed_body (name : string) (fn : M (option Z))
    (_ : Z) (times : list float) : M (list float) :=
  start ← perf_counter;
  out ← fn;
  _ ← emit (EvCall Timed name out);
  match out with
  | None => raise (RuntimeError ("case '" +:+ name +:+ "' returned None"))
  | Some _ =>
      t ← perf_counter;
      mret (times ++ [Float.mul (Float.sub t start) Float.thousand])
  end.

Definition run_case (name : string) (fn : M (option Z)) (iterations : Z) : M float :=
  _ ← for_each (range 3) (fun _ (_ : unit) =>
    out ← fn;
    emit (EvCall Warmup name out)) tt;
  times ← for_each (range iterations) (timed_body name fn) [];
  lift (truediv_float_int (py_sum H times) (len times)).

Definition cases : list case :=
  [ Case "groupby_mean" "base" (pandas H "groupby_mean");
    Case "filter_sort_top100" "base" (pandas H "filter_sort_top100");
    Case "sort_top1000" "base" (pandas H "sort_top1000");
    Case "sort_multicol_top800" "base" (pandas H "sort_multicol_top800");
    Case "value_counts_city" "base" (pandas H "value_counts_city");
    Case "value_counts_group_city_top10" "base"
      (pandas H "value_counts_group_city_top10");
    Case "value_counts_missing_city_dropna_false" "missing"
      (pandas H "value_counts_missing_city_dropna_false");
    Case "groupby_missing_city_mean" "missing"
      (pandas H "groupby_missing_city_mean");
    Case "value_counts_high_card_city_top20" "high_card"
      (pandas H "value_counts_high_card_city_top20");
    Case "value_counts_high_card_user_top100" "high_card"
      (pandas H "value_counts_high_card_user_top100") ].

(** The body of the loop [for _ in range(args.rounds)]. *)
Definition round_body (a : args) (c : case) (df : DataFrame)
    (_ : Z) (round_averages : list float) : M (list float) :=
  avg ← run_case (name c) (invoke (fn c df)) (iters a);
  mret (round_averages ++ [avg]).

(** The body of the loop [for case in cases]: the rounds of one case and its
    entry in [results]. *)
Definition measure_case (datasets : gmap string DataFrame) (a : args) (c : case)
    : M entry :=
  df ← lift (match datasets !! dataset c with
             | Some df => Ok df
             | None => Raise (KeyError (dataset c))
             end);
  round_averages ← for_each (range (rounds a)) (round_body a c df) [];
  avg_ms ← lift (median round_averages);
  mret (Entry (name c) (dataset c) avg_ms round_averages).

Definition case_body (datasets : gmap string DataFrame) (a : args)
    (c : case) (results : list entry) : M (list entry) :=
  e ← measure_case datasets a c;
  mret (results ++ [e]).

(** [os.makedirs], [open] and [json.dump] *)
Definition dump (path : string) (p : payload) : M unit :=
  if writable H path then emit (EvWrite path p) else raise OSError.

Definition print (line : string) : M unit := emit (EvPrint line).

Definition main (a : args) : M unit :=
  base ← build_dataset (rows a) false false false false;
  high_card ← build_dataset (rows a) false false true false;
  missing ← build_dataset (rows a) false false false true;
  let datasets : gmap string DataFrame :=
    <["missing" := missing]> (<["high_card" := high_card]> (<["base" := base]> ∅)) in
  results ← for_each cases (case_body datasets a) [];
  let payload :=
    Payload (utc_now H) (rows a) (iters a) (rounds a) (len results) results in
  _ ← dump (json_out a) payload;
  _ ← print "# bun_panda vs pandas benchmark";
  _ ← print ("rows=" +:+ str (rows a) +:+ ", iterations=" +:+ str (iters a)
             +:+ ", rounds=" +:+ str (rounds a)
             +:+ ", cases=" +:+ str (len results));
  _ ← print "";
  _ ← print "| case | dataset | pandas avg |";
  _ ← print "| --- | --- | ---: |";
  for_each results (fun e (_ : unit) =>
    print ("| " +:+ e_case e +:+ " | " +:+ e_dataset e +:+ " | "
           +:+ format_2f H (pandasAvgMs e) +:+ "ms |")) tt.

End Harness.


(** ** Definitions used to state the properties *)

(** The recurrence of the generator and the state after [k] calls. *)
Definition lcg_next (s : Z) : Z := (1664525 * s + 1013904223) mod 2 ^ 32.

Definition state_at (seed : Z) (k : nat) : Z :=
  Nat.iter k lcg_next (seed mod 2 ^ 32).

(** The canonical binary64 form of [n * 2 ^ k], for [0 < n < 2 ^ 53]. *)
Definition dyadic (n k : Z) : float :=
  let a := 52 - Z.log2 n in
  S754_finite false (Z.to_pos (n * 2 ^ a)) (k - a).

(** The float [s / 2 ** 32] of a state [s]. *)
Definition unit_float (s : Z) : float :=
  if s =? 0 then S754_zero false else dyadic s (-32).

(** Calling a generator [n] times in a row. *)
Definition draws (gen : M float) (n : nat) : M (list float) :=
  for_each (seq 0 n) (fun _ xs => x ← gen; mret (xs ++ [x])) [].

(** [value] and [weight] of a row, from the generator states they are drawn
    at. *)
Definition value_of (s : Z) : Z := s * 1000 / 2 ^ 32.

Definition weight_of (s : Z) : float :=
  round (Float.add (Float.mul (unit_float s) (dyadic 5 0)) Float.half) 2.

(** Row [i] of a dataset, from the states of a generator seeded with 42. *)
Definition row_at (skew wide high_cardinality include_missing : bool) (i : nat)
    : result dict :=
  make_row skew wide high_cardinality include_missing (Z.of_nat i)
    (value_of (state_at 42 (2 * i + 1))) (weight_of (state_at 42 (2 * i + 2))).

(** The threshold rule of [bucket], in the words of the specification. *)
Definition bucket_rule (value : Z) : string :=
  if value >? 700 then "high"
  else if (350 <? value) && (value <=? 700) then "mid"
  else "low".

(** Whether a row carries the category [g] in its [group] column. *)
Definition has_group (g : string) (row : dict) : bool :=
  match dict_get "group" row with
  | Some (VStr s) => String.eqb s g
  | _ => false
  end.

Fixpoint count {A} (f : A -> bool) (l : list A) : nat :=
  match l with
  | [] => 0
  | x :: l' => if f x then S (count f l') else count f l'
  end.

(** The [b]-th block of 100 rows. *)
Definition block (b : nat) (df : DataFrame) : DataFrame :=
  take 100 (drop (100 * b) df).

(** Whether row [i] of a skewed dataset carries the first category: by the
    skew, or because the cycle through [groups] lands on it. *)
Definition first_category (i : nat) : bool :=
  (Z.of_nat i mod 100 <? 70) || (Z.of_nat i mod len groups =? 0).

(** The events logged since [w], in a later world [w']. *)
Definition events_since (w w' : world) : list event :=
  drop (length (log w)) (log w').

(** What one call of [run_case] logs and measures.  [c] counts the
    invocations and [r] the clock readings made before. *)
Definition warm_events (name : string) (f : nat -> option Z) (c : nat) : list event :=
  [EvCall Warmup name (f c); EvCall Warmup name (f (S c)); EvCall Warmup name (f (S (S c)))].

Fixpoint timed_events (H : host) (name : string) (f : nat -> option Z)
    (c r k : nat) : list event :=
  match k with
  | O => []
  | S k' =>
      EvClock (perf_counter_at H r) :: EvCall Timed name (f c)
        :: EvClock (perf_counter_at H (S r)) :: timed_events H name f (S c) (S (S r)) k'
  end.

Fixpoint times_ms (H : host) (r k : nat) : list float :=
  match k with
  | O => []
  | S k' =>
      Float.mul (Float.sub (perf_counter_at H (S r)) (perf_counter_at H r)) Float.thousand
        :: times_ms H (S (S r)) k'
  end.

(** The first of the [k] invocations from the [c]-th on that returns None. *)
Fixpoint first_none (f : nat -> option Z) (c k : nat) : option nat :=
  match k with
  | O => None
  | S k' =>
      match f c with
      | None => Some O
      | Some _ => S <$> first_none f (S c) k'
      end
  end.

Definition none_message (name : string) : string :=
  "case '" +:+ name +:+ "' returned None".

Definition is_warmup (ev : event) : bool :=
  match ev with EvCall Warmup _ _ => true | _ => false end.

Definition is_timed (ev : event) : bool :=
  match ev with EvCall Timed _ _ => true | _ => false end.

Definition is_write (ev : event) : bool :=
  match ev with EvWrite _ _ => true | _ => false end.

Definition is_call (ev : event) : bool :=
  match ev with EvCall _ _ _ => true | _ => false end.

(** The exception a result carries, if any. *)
Definition failure {A} (r : result A) : option exn :=
  match r with
  | Ok _ => None
  | Raise e => Some e
  end.

(** A computation that logs [evs] and ends with [err] respects the null
    check when it writes no payload and a timed invocation that returned
    None is the last thing it did, ending it with the [RuntimeError] of the
    case. *)
Definition null_fatal (err : option exn) (evs : list event) : Prop :=
  Forall (fun ev => is_write ev = false) evs
  /\ forall nm, In (EvCall Timed nm None) evs ->
       err = Some (RuntimeError (none_message nm))
       /\ last evs = Some (EvCall Timed nm None).

Definition respects_null_check {A} (c : M A) : Prop :=
  forall w, exists evs,
    log (snd (c w)) = (log w ++ evs) /\ null_fatal (failure (fst (c w))) evs.

(** The first half of [main]: the datasets and the loop over the cases. *)
Definition measurements (H : host) (a : args) : M (list entry) :=
  base ← build_dataset (rows a) false false false false;
  high_card ← build_dataset (rows a) false false true false;
  missing ← build_dataset (rows a) false false false true;
  let datasets : gmap string DataFrame :=
    <["missing" := missing]> (<["high_card" := high_card]> (<["base" := base]> ∅)) in
  for_each (cases H) (case_body H datasets a) [].

(** The payload [main] assembles from [results], and the lines it prints. *)
Definition payload_of (H : host) (a : args) (results : list entry) : payload :=
  Payload (utc_now H) (rows a) (iters a) (rounds a) (len results) results.

Definition report_lines (H : host) (a : args) (results : list entry) : list string :=
  [ "# bun_panda vs pandas benchmark";
    "rows=" +:+ str (rows a) +:+ ", iterations=" +:+ str (iters a)
      +:+ ", rounds=" +:+ str (rounds a) +:+ ", cases=" +:+ str (len results);
    "";
    "| case | dataset | pandas avg |";
    "| --- | --- | ---: |" ]
  ++ map (fun e => "| " +:+ e_case e +:+ " | " +:+ e_dataset e +:+ " | "
                   +:+ format_2f H (pandasAvgMs e) +:+ "ms |") results.

(** [x <= y] on floats, as [sorted] sees it: not [y < x]. *)
Definition fle (x y : float) : Prop := Float.ltb y x = false.

(** The comparison of two finite floats of the same sign is the
    lexicographic comparison of exponent and mantissa. *)
Definition lex (e1 : Z) (m1 : positive) (e2 : Z) (m2 : positive) : comparison :=
  match e1 ?= e2 with
  | Eq => Pos.compare m1 m2
  | c => c
  end.

(** An int as a float, for examples. *)
Definition float_lit (n : Z) : float := binary_normalize Float.prec Float.emax n 0 false.

(** ** Example hosts *)

(** A clock that advances by one second per reading, operations that always
    return 5, a writable file system and a left-to-right [sum]. *)
Definition demo_host : host :=
  Host (fun n => float_lit (Z.of_nat n)) "2026-01-01T00:00:00Z" (fun _ => true)
       (fun xs => fold_left Float.add xs Float.zero) (fun _ => "0.00")
       (fun _ _ _ => Some 5).

(** The same, but the very first invocation in the run returns None. *)
Definition first_call_none_host : host :=
  Host (fun n => float_lit (Z.of_nat n)) "2026-01-01T00:00:00Z" (fun _ => true)
       (fun xs => fold_left Float.add xs Float.zero) (fun _ => "0.00")
       (fun _ _ n => if (n =? 0)%nat then None else Some 5).

(** The same, but the first timed invocation (the fourth in the run) returns
    None. *)
Definition timed_call_none_host : host :=
  Host (fun n => float_lit (Z.of_nat n)) "2026-01-01T00:00:00Z" (fun _ => true)
       (fun xs => fold_left Float.add xs Float.zero) (fun _ => "0.00")
       (fun _ _ n => if (n =? 3)%nat then None else Some 5).

Definition empty_world : world := World [] 0 0 [].

(** The dataset [build_dataset] returns in the empty world, for examples. *)
Definition example_rows (row_count : Z)
    (skew wide high_cardinality include_missing : bool) : DataFrame :=
  match fst (build_dataset row_count skew wide high_cardinality include_missing
               empty_world) with
  | Ok df => df
  | Raise _ => []
  end.

Definition example_args (rounds : Z) : args := Args 0 1 rounds "out.json".

(** ** Definitions used to state the further properties *)

(** The columns of a row, in the order of the dict literal, and the columns
    the [wide] loop adds. *)
Definition base_columns : list string :=
  ["id"; "group"; "city"; "segment"; "value"; "weight"; "revenue"; "active";
   "bucket"; "user_key"; "session_key"].

Definition extra_columns : list string :=
  map (fun i => "extra_" +:+ str i) (range 10).

(** The columns on which the dataset variants agree. *)
Definition shared_columns : list string :=
  ["id"; "value"; "weight"; "revenue"; "active"; "bucket"].

Definition is_print (ev : event) : bool :=
  match ev with EvPrint _ => true | _ => false end.

(** A computation is confined to [P] and [Q] when every event it logs
    satisfies [P] and every exception it ends with satisfies [Q]. *)
Definition confined (P : event -> Prop) (Q : exn -> Prop) {A} (c : M A) : Prop :=
  forall w, exists evs,
    log (snd (c w)) = (log w ++ evs)
    /\ Forall P evs
    /\ forall e, fst (c w) = Raise e -> Q e.

(** An event of the measurements: neither a write nor a print. *)
Definition silent (ev : event) : Prop := is_write ev = false /\ is_print ev = false.

(** An event of a call of [run_case] for the case [name] with the operation
    [f]: a reading of the clock, or an invocation logged under [name] whose
    result is a result of [f]. *)
Definition runs (name : string) (f : nat -> option Z) (ev : event) : Prop :=
  match ev with
  | EvCall _ nm out => nm = name /\ exists idx, out = f idx
  | EvClock _ => True
  | _ => False
  end.

(** The dataset [main] registers under [key]: [build_dataset(args.rows)]
    with [high_cardinality] for "high_card" and [include_missing] for
    "missing". *)
Definition variant (row_count : Z) (key : string) : DataFrame :=
  example_rows row_count false false (String.eqb key "high_card") (String.eqb key "missing").

(** The exceptions a measurement of the cases [cs] with [iterations] timed
    invocations per round can end with. *)
Definition measure_error (cs : list string) (iterations : Z) (e : exn) : Prop :=
  ((e = ZeroDivisionError \/ e = OverflowError) /\ ~ 0 < iterations < 2 ^ 53)
  \/ exists nm, In nm cs /\ e = RuntimeError (none_message nm).

(** [1 + a + ... + a ^ (n - 1)] for the multiplier [a] of the generator. *)
Fixpoint geom (n : nat) : Z :=
  match n with
  | O => 0
  | S n' => 1 + 1664525 * geom n'
  end.

(** The float [round] returns for [k] hundredths: the quotient [k / 100],
    correctly rounded. *)
Definition centi (k : Z) : float :=
  Float.div (S754_finite false (Z.to_pos k) 0) (S754_finite false 100 0).

(** Whether a float lies in [0.5, 5.5]. *)
Definition weight_bounds (x : float) : bool :=
  Qle_bool (1 # 2) (Float.to_Q x) && Qle_bool (Float.to_Q x) (11 # 2).

(** [x <= y] on floats as a test: not [y < x]. *)
Definition fleb (x y : float) : bool := negb (Float.ltb y x).

(** * Proofs *)

(** ** The monad *)

Lemma bind_run {A B} (c : M A) (f : A -> M B) w :
  (x ← c; f x) w = match c w with (Ok a, w') => f a w' | (Raise e, w') => (Raise e, w') end.
Proof. reflexivity. Qed.

(** ** Exact binary64 arithmetic

    The draws of [build_dataset] stay within 53 bits, so that the float
    operations on them are exact. *)

Lemma digits2_pos_size p : digits2_pos p = Pos.size p.
Proof. induction p; simpl; congruence. Qed.

Lemma Zdigits2_log2 m : 0 < m -> Zdigits2 m = Z.log2 m + 1.
Proof.
  destruct m as [|p|p]; try lia. intros _. simpl. rewrite digits2_pos_size.
  destruct p; simpl; lia.
Qed.

Lemma iter_pos_iter {A} (f : A -> A) n x : SpecFloat.iter_pos f n x = Pos.iter f x n.
Proof.
  revert x. induction n; intros x; simpl.
  - rewrite !IHn, !Pos.iter_swap. reflexivity.
  - rewrite !IHn. reflexivity.
  - reflexivity.
Qed.

Lemma shr_1_even m : 0 < m -> m mod 2 = 0 ->
  shr_1 (Build_shr_record m false false) = Build_shr_record (m / 2) false false.
Proof.
  intros Hm He. destruct m as [|p|p]; try lia.
  destruct p as [p|p|].
  - exfalso. rewrite Pos2Z.inj_xI in He. 
    replace (2 * Z.pos p + 1) with (1 + Z.pos p * 2) in He by lia.
    rewrite Z.mod_add in He by lia. discriminate.
  - simpl. f_equal. rewrite Pos2Z.inj_xO. rewrite Z.mul_comm. rewrite Z.div_mul by lia. reflexivity.
  - discriminate.
Qed.

Lemma shr_exact m e k : 0 < m -> 0 <= k -> m mod 2 ^ k = 0 ->
  shr (Build_shr_record m false false) e k = (Build_shr_record (m / 2 ^ k) false false, e + k).
Proof.
  intros Hm Hk Hmod. destruct k as [|p|p]; try lia.
  - simpl. rewrite Z.div_1_r, Z.add_0_r. reflexivity.
  - unfold shr. f_equal. rewrite iter_pos_iter.
    clear Hk e. revert m Hm Hmod. induction p using Pos.peano_ind; intros m Hm Hmod.
    + simpl. change (2 ^ 1) with 2 in *. apply shr_1_even; assumption.
    + rewrite Pos.iter_succ_r.
      assert (H2 : 2 ^ Z.pos (Pos.succ p) = 2 * 2 ^ Z.pos p).
      { rewrite Pos2Z.inj_succ. rewrite Z.pow_succ_r by lia. reflexivity. }
      rewrite H2 in *.
      assert (Hp : 0 < 2 ^ Z.pos p) by (apply Z.pow_pos_nonneg; lia).
      assert (Hd : exists q, m = 2 * 2 ^ Z.pos p * q).
      { exists (m / (2 * 2 ^ Z.pos p)). apply Z.div_exact in Hmod; lia. }
      destruct Hd as [q ->].
      assert (Hq : 0 < q) by nia.
      rewrite shr_1_even.
      * replace (2 * 2 ^ Z.pos p * q / 2) with (2 ^ Z.pos p * q).
        2:{ replace (2 * 2 ^ Z.pos p * q) with ((2 ^ Z.pos p * q) * 2) by lia. rewrite Z.div_mul; lia. }
        rewrite IHp.
        -- f_equal. rewrite (Z.mul_comm (2 ^ Z.pos p) q), Z.div_mul by lia.
           replace (2 * 2 ^ Z.pos p * q) with (q * (2 * 2 ^ Z.pos p)) by lia.
           rewrite Z.div_mul by lia. reflexivity.
        -- nia.
        -- rewrite Z.mul_comm. apply Z.mod_mul. lia.
      * nia.
      * replace (2 * 2 ^ Z.pos p * q) with ((2 ^ Z.pos p * q) * 2) by lia. apply Z.mod_mul. lia.
Qed.

Lemma binary_round_aux_exact s m e k :
  0 < m -> k = Z.log2 m + 1 - 53 -> 0 <= k -> m mod 2 ^ k = 0 ->
  -1074 <= e + k <= 971 ->
  binary_round_aux 53 1024 s m e loc_Exact = S754_finite s (Z.to_pos (m / 2 ^ k)) (e + k).
Proof.
  intros Hm Hk Hk0 Hmod He.
  assert (Hp : 0 < 2 ^ k) by (apply Z.pow_pos_nonneg; lia).
  assert (Hmk : m = 2 ^ k * (m / 2 ^ k)).
  { apply Z.div_exact; lia. }
  set (n := m / 2 ^ k) in *.
  assert (Hn : 0 < n) by nia.
  assert (Hln : Z.log2 n = 52).
  { assert (Z.log2 m = Z.log2 n + k).
    { rewrite Hmk at 1. rewrite Z.mul_comm, Z.log2_mul_pow2; lia. }
    lia. }
  unfold binary_round_aux, shr_fexp.
  rewrite Zdigits2_log2 by lia.
  replace (fexp 53 1024 (Z.log2 m + 1 + e) - e) with k.
  2:{ unfold fexp, emin. lia. }
  simpl shr_record_of_loc. rewrite shr_exact by assumption. fold n.
  simpl loc_of_shr_record. simpl round_nearest_even. simpl shr_m.
  rewrite Zdigits2_log2 by lia. rewrite Hln.
  replace (fexp 53 1024 (52 + 1 + (e + k)) - (e + k)) with 0.
  2:{ unfold fexp, emin. lia. }
  simpl. destruct n as [|p|p]; try lia. simpl.
  replace (e + k <=? 1024 - 53) with true by (symmetry; apply Z.leb_le; lia).
  reflexivity.
Qed.

Lemma log2_lt_53 n : 0 < n < 2 ^ 53 -> 0 <= Z.log2 n <= 52.
Proof.
  intros Hn. split; [apply Z.log2_nonneg|].
  assert (Z.log2 n < 53); [|lia]. apply Z.log2_lt_pow2; lia.
Qed.

Lemma pos_iter_xO p d : Z.pos (Pos.iter xO p d) = Z.pos p * 2 ^ Z.pos d.
Proof.
  induction d using Pos.peano_ind.
  - simpl. lia.
  - rewrite Pos.iter_succ, Pos2Z.inj_xO, IHd, Pos2Z.inj_succ, Z.pow_succ_r; lia.
Qed.

Lemma float_of_int_dyadic n : 0 < n < 2 ^ 53 -> float_of_int n = Ok (dyadic n 0).
Proof.
  intros Hn. pose proof (log2_lt_53 n Hn) as Hl.
  destruct n as [|p|p]; try lia.
  unfold float_of_int, binary_normalize, binary_round, Float.prec, Float.emax.
  rewrite digits2_pos_size.
  assert (Hs : Z.pos (Pos.size p) = Z.log2 (Z.pos p) + 1).
  { clear. destruct p; simpl; lia. }
  rewrite Hs.
  replace (fexp 53 1024 (Z.log2 (Z.pos p) + 1 + 0)) with (Z.log2 (Z.pos p) - 52).
  2:{ unfold fexp, emin. lia. }
  unfold shl_align.
  set (a := 52 - Z.log2 (Z.pos p)).
  assert (Ha : 0 <= a) by lia.
  destruct (Z.log2 (Z.pos p) - 52 - 0) as [|d|d] eqn:Hd; try lia.
  - rewrite (binary_round_aux_exact _ _ _ 0); try lia.
    + unfold dyadic. fold a. replace a with 0 by lia.
      replace (Z.log2 (Z.pos p) - 52) with 0 by lia.
      simpl. rewrite Z.div_1_r. simpl. rewrite Pos.mul_1_r. reflexivity.
    + apply Z.mod_1_r.
  - assert (Had : a = Z.pos d) by lia.
    rewrite (binary_round_aux_exact _ _ _ 0); try lia.
    + unfold dyadic. fold a. rewrite pos_iter_xO, <- Had.
      rewrite Z.div_1_r. replace (Z.log2 (Z.pos p) - 52 + 0) with (0 - a) by lia. reflexivity.
    + rewrite pos_iter_xO, <- Had, Z.log2_mul_pow2; lia.
    + apply Z.mod_1_r.
Qed.

Lemma dyadic_pos_facts n : 0 < n < 2 ^ 53 ->
  let a := 52 - Z.log2 n in
  0 <= a /\ 0 < n * 2 ^ a /\ Z.log2 (n * 2 ^ a) = 52 /\ Z.pos (Z.to_pos (n * 2 ^ a)) = n * 2 ^ a.
Proof.
  intros Hn a. pose proof (log2_lt_53 n Hn) as Hl.
  assert (Ha : 0 <= a) by (unfold a; lia).
  assert (Hp : 0 < 2 ^ a) by (apply Z.pow_pos_nonneg; lia).
  assert (0 < n * 2 ^ a) by nia.
  repeat split; try assumption.
  - rewrite Z.log2_mul_pow2; unfold a; lia.
  - apply Z2Pos.id; assumption.
Qed.

Lemma mul_dyadic n k n' k' :
  0 < n -> 0 < n' -> n * n' < 2 ^ 53 -> -1000 <= k + k' <= 900 ->
  Float.mul (dyadic n k) (dyadic n' k') = dyadic (n * n') (k + k').
Proof.
  intros Hn Hn' Hnn Hk.
  assert (Hn1 : 0 < n < 2 ^ 53) by nia.
  assert (Hn2 : 0 < n' < 2 ^ 53) by nia.
  assert (Hn3 : 0 < n * n' < 2 ^ 53) by nia.
  destruct (dyadic_pos_facts n Hn1) as (Ha & Hpa & Hla & Hida).
  destruct (dyadic_pos_facts n' Hn2) as (Hb & Hpb & Hlb & Hidb).
  destruct (dyadic_pos_facts _ Hn3) as (Hc & Hpc & Hlc & Hidc).
  pose proof (log2_lt_53 _ Hn1). pose proof (log2_lt_53 _ Hn2). pose proof (log2_lt_53 _ Hn3).
  unfold Float.mul, dyadic, SFmul, Float.prec, Float.emax. simpl xorb.
  set (a := 52 - Z.log2 n) in *. set (b := 52 - Z.log2 n') in *.
  set (c := 52 - Z.log2 (n * n')) in *.
  rewrite Pos2Z.inj_mul, Hida, Hidb.
  assert (Hm : n * 2 ^ a * (n' * 2 ^ b) = (n * n') * 2 ^ (a + b)).
  { rewrite Z.pow_add_r by lia. ring. }
  rewrite Hm.
  assert (Hlog : Z.log2 (n * n' * 2 ^ (a + b)) = Z.log2 (n * n') + (a + b)).
  { rewrite Z.log2_mul_pow2; lia. }
  assert (Hab : Z.log2 n + Z.log2 n' <= Z.log2 (n * n')).
  { apply Z.log2_le_pow2; [lia|]. rewrite Z.pow_add_r by lia.
    pose proof (Z.log2_spec n ltac:(lia)). pose proof (Z.log2_spec n' ltac:(lia)). nia. }
  set (sh := a + b - c).
  assert (Hsh : 0 <= sh) by (unfold sh, a, b, c; lia).
  assert (Hsplit : n * n' * 2 ^ (a + b) = (n * n' * 2 ^ c) * 2 ^ sh).
  { replace (a + b) with (c + sh) by (unfold sh; lia). rewrite Z.pow_add_r by lia. ring. }
  assert (Hpsh : 0 < 2 ^ sh) by (apply Z.pow_pos_nonneg; lia).
  rewrite (binary_round_aux_exact _ _ _ sh).
  - rewrite Hsplit, Z.div_mul by lia. f_equal. unfold sh. lia.
  - rewrite <- Hm. nia.
  - rewrite Hlog. unfold sh, c. lia.
  - assumption.
  - rewrite Hsplit. apply Z.mod_mul. lia.
  - unfold sh, a, b, c. lia.
Qed.

Lemma int_of_float_dyadic n k : 0 < n < 2 ^ 53 -> k <= 0 ->
  int_of_float (dyadic n k) = Ok (n / 2 ^ (- k)).
Proof.
  intros Hn Hk. destruct (dyadic_pos_facts n Hn) as (Ha & Hpa & Hla & Hida).
  unfold int_of_float, dyadic. set (a := 52 - Z.log2 n) in *.
  rewrite Hida. simpl cond_Zopp. f_equal.
  destruct (0 <=? k - a) eqn:He.
  - apply Z.leb_le in He. replace a with 0 by lia. replace k with 0 by lia.
    simpl. rewrite Z.div_1_r. lia.
  - apply Z.leb_gt in He.
    replace (- (k - a)) with (- k + a) by lia.
    rewrite Z.pow_add_r by lia.
    assert (0 < 2 ^ a) by (apply Z.pow_pos_nonneg; lia).
    assert (0 < 2 ^ (- k)) by (apply Z.pow_pos_nonneg; lia).
    rewrite Z.div_mul_cancel_r by lia. reflexivity.
Qed.

Lemma int_truediv_2_32 s : 0 < s < 2 ^ 32 -> int_truediv s (2 ^ 32) = Ok (dyadic s (-32)).
Proof.
  intros Hs.
  assert (Hs' : 0 < s < 2 ^ 53) by lia.
  destruct (dyadic_pos_facts s Hs') as (Ha & Hpa & Hla & Hida).
  pose proof (log2_lt_53 _ Hs') as Hl.
  assert (Hl32 : Z.log2 s < 32) by (apply Z.log2_lt_pow2; lia).
  unfold int_truediv. change (2 ^ 32 =? 0) with false. cbv iota.
  destruct s as [|p|p]; try lia.
  change (Z.abs (Z.pos p)) with (Z.pos p). cbv iota.
  change (xorb (Z.pos p <? 0) (2 ^ 32 <? 0)) with false.
  unfold Float.div, SFdiv, SFdiv_core_binary, Float.prec, Float.emax.
  change (Z.pos (Z.to_pos (Z.abs (2 ^ 32)))) with (2 ^ 32).
  rewrite (Zdigits2_log2 (Z.pos p)) by lia.
  change (Zdigits2 (2 ^ 32)) with 33.
  set (l := Z.log2 (Z.pos p)) in *.
  replace (Z.min (fexp 53 1024 (l + 1 + 0 - (33 + 0))) (0 - 0)) with (l - 85).
  2:{ unfold fexp, emin. lia. }
  replace (0 - 0 - (l - 85)) with (85 - l) by lia.
  destruct (85 - l) as [|sh|sh] eqn:Hsh; try lia.
  rewrite Z.shiftl_mul_pow2 by lia. rewrite <- Hsh.
  assert (Hq : Z.pos p * 2 ^ (85 - l) = (Z.pos p * 2 ^ (53 - l)) * 2 ^ 32).
  { replace (85 - l) with (53 - l + 32) by lia. rewrite Z.pow_add_r by lia. ring. }
  assert (Hde : Z.div_eucl (Z.pos p * 2 ^ (85 - l)) (2 ^ 32) = (Z.pos p * 2 ^ (53 - l), 0)).
  { pose proof (Z.div_eucl_eq (Z.pos p * 2 ^ (85 - l)) (2 ^ 32) ltac:(lia)) as E.
    pose proof (Z.mod_pos_bound (Z.pos p * 2 ^ (85 - l)) (2 ^ 32) ltac:(lia)) as B.
    unfold Z.modulo in B. destruct (Z.div_eucl _ _) as [q r].
    rewrite Hq in E. assert (r = 0 /\ q = Z.pos p * 2 ^ (53 - l)) as [-> ->]; [|reflexivity].
    assert (0 < 2 ^ (53 - l)) by (apply Z.pow_pos_nonneg; lia).
    nia. }
  rewrite Hde. change (new_location (2 ^ 32) 0) with loc_Exact.
  assert (H53 : Z.pos p * 2 ^ (53 - l) = Z.pos p * 2 ^ (52 - l) * 2 ^ 1).
  { replace (53 - l) with (52 - l + 1) by lia. rewrite Z.pow_add_r by lia. ring. }
  rewrite (binary_round_aux_exact _ _ _ 1).
  - rewrite H53, Z.div_mul by lia. unfold dyadic. fold l.
    replace (l - 85 + 1) with (-32 - (52 - l)) by lia. reflexivity.
  - rewrite H53. lia.
  - rewrite Z.log2_mul_pow2 by lia. fold l. lia.
  - lia.
  - rewrite H53. apply Z.mod_mul. lia.
  - lia.
Qed.

(** ** The generator and the rows *)

Lemma land_mask a : Z.land a 0xFFFFFFFF = a mod 2 ^ 32.
Proof. change 0xFFFFFFFF with (Z.ones 32). apply Z.land_ones. lia. Qed.

Lemma lcg_next_range s : 0 <= lcg_next s < 2 ^ 32.
Proof. apply Z.mod_pos_bound. lia. Qed.

Lemma state_at_range seed k : 0 <= state_at seed k < 2 ^ 32.
Proof.
  destruct k; simpl; [apply Z.mod_pos_bound; lia | apply lcg_next_range].
Qed.

Lemma int_truediv_unit s : 0 <= s < 2 ^ 32 -> int_truediv s (2 ^ 32) = Ok (unit_float s).
Proof.
  intros Hs. unfold unit_float. destruct (Z.eqb_spec s 0) as [->|Hne].
  - reflexivity.
  - apply int_truediv_2_32. lia.
Qed.

Lemma rnd_run loc s w : cells w !! loc = Some s ->
  rnd loc w = (Ok (unit_float (lcg_next s)),
               World (<[loc := lcg_next s]> (cells w)) (calls w) (reads w) (log w)).
Proof.
  intros Hc. unfold rnd. rewrite bind_run. unfold load. rewrite Hc.
  rewrite bind_run. unfold store. unfold lift. cbn [cells calls reads log].
  rewrite land_mask. fold (lcg_next s). rewrite int_truediv_unit by apply lcg_next_range.
  reflexivity.
Qed.

Lemma value_of_range s : 0 <= s < 2 ^ 32 -> 0 <= value_of s < 1000.
Proof.
  intros Hs. unfold value_of. split.
  - apply Z.div_pos; lia.
  - apply Z.div_lt_upper_bound; lia.
Qed.

Lemma draw_value s : 0 <= s < 2 ^ 32 ->
  (y ← mul_float_int (unit_float s) 1000; int_of_float y) = Ok (value_of s).
Proof.
  intros Hs. unfold mul_float_int.
  rewrite (float_of_int_dyadic 1000) by lia. cbn [mbind result_bind].
  unfold unit_float, value_of. destruct (Z.eqb_spec s 0) as [->|Hne].
  - reflexivity.
  - rewrite mul_dyadic by lia. rewrite int_of_float_dyadic by lia.
    rewrite Z.add_0_r. reflexivity.
Qed.

Lemma draw_weight s :
  (y ← mul_float_int (unit_float s) 5; Ok (round (Float.add y Float.half) 2)) = Ok (weight_of s).
Proof.
  unfold mul_float_int. rewrite (float_of_int_dyadic 5) by lia. reflexivity.
Qed.

Lemma getitem_ok {A} (l : list A) j : 0 <= j < len l ->
  exists x, l !! Z.to_nat j = Some x /\ getitem l j = Ok x.
Proof.
  intros Hj. unfold getitem.
  replace (j <? 0) with false by (symmetry; apply Z.ltb_ge; lia).
  replace ((0 <=? j) && (j <? len l)) with true.
  2:{ symmetry. apply andb_true_iff. split; [apply Z.leb_le | apply Z.ltb_lt]; lia. }
  destruct (l !! Z.to_nat j) as [x|] eqn:Hx.
  - exists x. split; reflexivity.
  - apply lookup_ge_None in Hx. unfold len in Hj. lia.
Qed.

Lemma float_of_int_small v : 0 <= v < 2 ^ 53 -> exists fv, float_of_int v = Ok fv.
Proof.
  intros Hv. destruct (Z.eq_dec v 0) as [->|Hne].
  - eexists. reflexivity.
  - eexists. apply float_of_int_dyadic. lia.
Qed.

Lemma make_row_total skew wide hc im idx value weight :
  0 <= value < 2 ^ 53 ->
  exists row, make_row skew wide hc im idx value weight = Ok row.
Proof.
  intros Hv. unfold make_row.
  assert (Hg : exists g, (if skew && (idx mod 100 <? 70) then Ok "A"
                          else getitem groups (idx mod len groups)) = Ok g).
  { destruct (skew && _); [eexists; reflexivity|].
    destruct (getitem_ok groups (idx mod len groups)) as (g & _ & ->).
    - apply Z.mod_pos_bound. reflexivity.
    - eexists; reflexivity. }
  destruct Hg as [g ->].
  assert (Hc : exists c, (if im && (idx mod 23 =? 0) then Ok VNone
                          else VStr <$> getitem cities (idx mod len cities)) = Ok c).
  { destruct (im && _); [eexists; reflexivity|].
    destruct (getitem_ok cities (idx mod len cities)) as (c & _ & ->).
    - apply Z.mod_pos_bound. reflexivity.
    - eexists; reflexivity. }
  destruct Hc as [c ->].
  assert (Hs : exists c, (if im && (idx mod 31 =? 0) then Ok VNone
                          else VStr <$> getitem segments (idx mod len segments)) = Ok c).
  { destruct (im && _); [eexists; reflexivity|].
    destruct (getitem_ok segments (idx mod len segments)) as (c' & _ & ->).
    - apply Z.mod_pos_bound. reflexivity.
    - eexists; reflexivity. }
  destruct Hs as [sg ->].
  destruct (float_of_int_small value Hv) as [fv Hfv].
  unfold mul_int_float. rewrite Hfv.
  cbn [mbind result_bind]. eexists. reflexivity.
Qed.

Lemma row_at_total skew wide hc im i : exists row, row_at skew wide hc im i = Ok row.
Proof.
  apply make_row_total.
  pose proof (value_of_range (state_at 42 (2 * i + 1)) (state_at_range _ _)). lia.
Qed.

Lemma state_at_S seed k : state_at seed (S k) = lcg_next (state_at seed k).
Proof. reflexivity. Qed.

Section Loop.

Variables skew wide hc im : bool.
Variable loc : nat.

Lemma body_run (a : nat) acc w :
  cells w !! loc = Some (state_at 42 (2 * a)) ->
  exists row, row_at skew wide hc im a = Ok row /\
    row_body skew wide hc im (rnd loc) (Z.of_nat a) acc w =
      (Ok (acc ++ [row]),
       World (<[loc := state_at 42 (2 * S a)]> (cells w)) (calls w) (reads w) (log w)).
Proof.
  intros Hc. destruct (row_at_total skew wide hc im a) as [row Hrow].
  exists row. split; [exact Hrow|].
  unfold row_body. rewrite bind_run, (rnd_run _ _ _ Hc). rewrite <- state_at_S.
  rewrite bind_run. unfold lift at 1. rewrite draw_value by apply state_at_range.
  rewrite bind_run.
  erewrite rnd_run.
  2:{ cbn [cells]. apply list_lookup_insert_eq. eapply lookup_lt_Some; eassumption. }
  rewrite <- state_at_S. cbn [cells calls reads log].
  rewrite bind_run. unfold lift at 1. rewrite draw_weight.
  rewrite bind_run. unfold lift.
  unfold row_at in Hrow.
  replace (2 * a + 1)%nat with (S (2 * a)) in Hrow by lia.
  replace (2 * a + 2)%nat with (S (S (2 * a))) in Hrow by lia.
  rewrite Hrow. rewrite list_insert_insert_eq.
  replace (2 * S a)%nat with (S (S (2 * a))) by lia. reflexivity.
Qed.

Lemma rows_loop (m : nat) : forall (a : nat) acc w,
  cells w !! loc = Some (state_at 42 (2 * a)) ->
  Forall2 (fun i row => row_at skew wide hc im i = Ok row) (seq 0 a) acc ->
  exists rows,
    for_each (map Z.of_nat (seq a m)) (row_body skew wide hc im (rnd loc)) acc w =
      (Ok rows,
       World (<[loc := state_at 42 (2 * (a + m))]> (cells w)) (calls w) (reads w) (log w))
    /\ Forall2 (fun i row => row_at skew wide hc im i = Ok row) (seq 0 (a + m)) rows.
Proof.
  induction m as [|m IH]; intros a acc w Hc Hacc.
  - exists acc. rewrite Nat.add_0_r. split; [|assumption].
    simpl. rewrite list_insert_id by assumption. destruct w; reflexivity.
  - destruct (body_run a acc w Hc) as (row & Hrow & Hb).
    cbn [seq map for_each]. rewrite bind_run, Hb.
    edestruct (IH (S a) (acc ++ [row])
      (World (<[loc := state_at 42 (2 * S a)]> (cells w)) (calls w) (reads w) (log w)))
      as (rows & Hrun & Hall).
    + cbn [cells]. apply list_lookup_insert_eq. eapply lookup_lt_Some; eassumption.
    + replace (S a) with (a + 1)%nat by lia. rewrite seq_app.
      apply Forall2_app; [assumption|]. constructor; [exact Hrow | constructor].
    + exists rows. rewrite Hrun. cbn [cells calls reads log].
      rewrite list_insert_insert_eq.
      replace (S a + m)%nat with (a + S m)%nat in * by lia. split; [reflexivity|assumption].
Qed.

End Loop.

Lemma build_dataset_run row_count skew wide hc im w :
  exists rows,
    build_dataset row_count skew wide hc im w =
      (Ok rows,
       World (cells w ++ [state_at 42 (2 * Z.to_nat row_count)]) (calls w) (reads w) (log w))
    /\ Forall2 (fun i row => row_at skew wide hc im i = Ok row)
         (seq 0 (Z.to_nat row_count)) rows.
Proof.
  unfold build_dataset, lcg. rewrite !bind_run. unfold new_cell.
  cbn [mret M_ret]. rewrite bind_run. unfold range.
  edestruct (rows_loop skew wide hc im (length (cells w)) (Z.to_nat row_count) 0 []
               (World (cells w ++ [Z.land 42 0xFFFFFFFF]) (calls w) (reads w) (log w)))
    as (rows & Hrun & Hall).
  - cbn [cells]. rewrite lookup_app_r by lia. rewrite Nat.sub_diag. reflexivity.
  - constructor.
  - exists rows. rewrite Hrun. cbn [cells calls reads log]. split; [|exact Hall].
    f_equal. f_equal. rewrite insert_app_r_alt by lia. rewrite Nat.sub_diag. reflexivity.
Qed.

Lemma make_row_fields skew wide hc im idx value weight row :
  make_row skew wide hc im idx value weight = Ok row ->
  dict_get "id" row = Some (VInt idx)
  /\ (exists g, dict_get "group" row = Some (VStr g)
        /\ (if skew && (idx mod 100 <? 70) then g = "A"
            else getitem groups (idx mod len groups) = Ok g))
  /\ (exists c, dict_get "city" row = Some c
        /\ (if im && (idx mod 23 =? 0) then c = VNone
            else exists s, c = VStr s /\ getitem cities (idx mod len cities) = Ok s))
  /\ (exists c, dict_get "segment" row = Some c
        /\ (if im && (idx mod 31 =? 0) then c = VNone
            else exists s, c = VStr s /\ getitem segments (idx mod len segments) = Ok s))
  /\ dict_get "value" row = Some (VInt value)
  /\ dict_get "weight" row = Some (VFloat weight)
  /\ (exists p, mul_int_float value weight = Ok p
        /\ dict_get "revenue" row = Some (VFloat (round p 2)))
  /\ dict_get "bucket" row =
       Some (VStr (if value >? 700 then "high" else if value >? 350 then "mid" else "low")).
Proof.
  unfold make_row. intros Hrow.
  destruct (if skew && (idx mod 100 <? 70) then Ok "A"
            else getitem groups (idx mod len groups)) as [g|] eqn:Hg; [|discriminate Hrow].
  destruct (if im && (idx mod 23 =? 0) then Ok VNone
            else VStr <$> getitem cities (idx mod len cities)) as [c|] eqn:Hc; [|discriminate Hrow].
  destruct (if im && (idx mod 31 =? 0) then Ok VNone
            else VStr <$> getitem segments (idx mod len segments)) as [sg|] eqn:Hs; [|discriminate Hrow].
  destruct (mul_int_float value weight) as [p|] eqn:Hp; [|discriminate Hrow].
  cbn [mbind result_bind] in Hrow. injection Hrow as <-.
  assert (Hg' : if skew && (idx mod 100 <? 70) then g = "A"
                else getitem groups (idx mod len groups) = Ok g).
  { revert Hg. destruct (skew && (idx mod 100 <? 70)); congruence. }
  assert (Hc' : if im && (idx mod 23 =? 0) then c = VNone
                else exists s, c = VStr s /\ getitem cities (idx mod len cities) = Ok s).
  { revert Hc. destruct (im && (idx mod 23 =? 0)); [congruence|].
    destruct (getitem cities _) as [s|]; [|discriminate].
    intros Hc. exists s. cbn in Hc. split; congruence. }
  assert (Hs' : if im && (idx mod 31 =? 0) then sg = VNone
                else exists s, sg = VStr s /\ getitem segments (idx mod len segments) = Ok s).
  { revert Hs. destruct (im && (idx mod 31 =? 0)); [congruence|].
    destruct (getitem segments _) as [s|]; [|discriminate].
    intros Hs. exists s. cbn in Hs. split; congruence. }
  clear Hg Hc Hs.
  destruct wide.
  - split; [reflexivity|]. split; [exists g; split; [reflexivity|exact Hg']|].
    split; [exists c; split; [reflexivity|exact Hc']|].
    split; [exists sg; split; [reflexivity|exact Hs']|].
    split; [reflexivity|]. split; [reflexivity|].
    split; [exists p; split; reflexivity|]. reflexivity.
  - split; [reflexivity|]. split; [exists g; split; [reflexivity|exact Hg']|].
    split; [exists c; split; [reflexivity|exact Hc']|].
    split; [exists sg; split; [reflexivity|exact Hs']|].
    split; [reflexivity|]. split; [reflexivity|].
    split; [exists p; split; reflexivity|]. reflexivity.
Qed.

Lemma dataset_rows row_count skew wide hc im w df w' :
  build_dataset row_count skew wide hc im w = (Ok df, w') ->
  Forall2 (fun i row => row_at skew wide hc im i = Ok row) (seq 0 (Z.to_nat row_count)) df.
Proof.
  intros Hrun. destruct (build_dataset_run row_count skew wide hc im w) as (rows & Hr & Hall).
  congruence.
Qed.

Lemma dataset_row row_count skew wide hc im w df w' row :
  build_dataset row_count skew wide hc im w = (Ok df, w') ->
  row ∈ df ->
  exists i : nat, df !! i = Some row /\ row_at skew wide hc im i = Ok row.
Proof.
  intros Hrun Hin. apply dataset_rows in Hrun.
  apply list_elem_of_lookup in Hin as [i Hi]. exists i. split; [assumption|].
  destruct (Forall2_lookup_r _ _ _ _ _ Hrun Hi) as (j & Hj & HP).
  apply lookup_seq in Hj as [-> _]. exact HP.
Qed.

(** ** Properties of the datasets *)

Lemma row_at_unique skew wide hc im (i : nat) (r1 r2 : dict) :
  row_at skew wide hc im i = Ok r1 -> row_at skew wide hc im i = Ok r2 -> r1 = r2.
Proof. congruence. Qed.

(** C1: for every row count and every combination of the flags, two calls of
    [build_dataset] with the same arguments return the same rows, in whatever
    world each call starts: the generator of a call is a fresh cell seeded
    with 42, so that row [i] is made from the states [2 i + 1] and [2 i + 2]
    of that generator and nothing else. *)
Theorem build_dataset_deterministic row_count skew wide hc im :
  exists df,
    (forall w, exists w', build_dataset row_count skew wide hc im w = (Ok df, w'))
    /\ (forall w, exists w1 w2,
          build_dataset row_count skew wide hc im w = (Ok df, w1)
          /\ build_dataset row_count skew wide hc im w1 = (Ok df, w2))
    /\ Forall2 (fun i row => row_at skew wide hc im i = Ok row)
         (seq 0 (Z.to_nat row_count)) df.
Proof.
  destruct (build_dataset_run row_count skew wide hc im (World [] 0 0 []))
    as (df & _ & Hdf).
  assert (Hall : forall w, exists w', build_dataset row_count skew wide hc im w = (Ok df, w')).
  { intros w. destruct (build_dataset_run row_count skew wide hc im w) as (rows & Hr & Hrows).
    eexists. rewrite Hr. do 2 f_equal.
    eapply Forall2_unique; [exact Hrows | exact Hdf |]. intros i r1 r2. apply row_at_unique. }
  exists df. split; [exact Hall|]. split; [|exact Hdf].
  intros w. destruct (Hall w) as [w1 H1]. destruct (Hall w1) as [w2 H2].
  exists w1, w2. split; assumption.
Qed.

(** C6: in every row of every dataset, with [include_missing] the city is
    None exactly when [id % 23 == 0] and the segment is None exactly when
    [id % 31 == 0]; without it neither is ever None. *)
Theorem null_injection row_count skew wide hc im w df w' row :
  build_dataset row_count skew wide hc im w = (Ok df, w') ->
  row ∈ df ->
  exists id city segment,
    dict_get "id" row = Some (VInt id)
    /\ dict_get "city" row = Some city
    /\ dict_get "segment" row = Some segment
    /\ (im = true -> (city = VNone <-> id mod 23 = 0) /\ (segment = VNone <-> id mod 31 = 0))
    /\ (im = false -> city <> VNone /\ segment <> VNone).
Proof.
  intros Hrun Hin. destruct (dataset_row _ _ _ _ _ _ _ _ _ Hrun Hin) as (i & _ & Hrow).
  apply make_row_fields in Hrow
    as (Hid & _ & (c & Hc & Hc') & (s & Hs & Hs') & _).
  exists (Z.of_nat i), c, s. repeat (split; [assumption|]). split.
  - intros ->. cbn [andb] in Hc', Hs'. split.
    + destruct (Z.eqb_spec (Z.of_nat i mod 23) 0) as [E|E].
      * subst c. tauto.
      * destruct Hc' as (x & -> & _). split; [discriminate | contradiction].
    + destruct (Z.eqb_spec (Z.of_nat i mod 31) 0) as [E|E].
      * subst s. tauto.
      * destruct Hs' as (x & -> & _). split; [discriminate | contradiction].
  - intros ->. cbn [andb] in Hc', Hs'.
    destruct Hc' as (x & -> & _). destruct Hs' as (y & -> & _). split; discriminate.
Qed.

Lemma bucket_rule_eq value :
  (if value >? 700 then "high" else if value >? 350 then "mid" else "low")
  = bucket_rule value.
Proof.
  unfold bucket_rule.
  destruct (Z.gtb_spec value 700), (Z.gtb_spec value 350), (Z.ltb_spec 350 value),
    (Z.leb_spec value 700); try reflexivity; lia.
Qed.

(** C5: in every row of every dataset, [revenue] is
    [round(value * weight, 2)] and [bucket] follows the threshold rule on
    [value]: both are functions of the row's own [value] and [weight]. *)
Theorem derived_fields row_count skew wide hc im w df w' row :
  build_dataset row_count skew wide hc im w = (Ok df, w') ->
  row ∈ df ->
  exists value weight product,
    dict_get "value" row = Some (VInt value)
    /\ dict_get "weight" row = Some (VFloat weight)
    /\ mul_int_float value weight = Ok product
    /\ dict_get "revenue" row = Some (VFloat (round product 2))
    /\ dict_get "bucket" row = Some (VStr (bucket_rule value)).
Proof.
  intros Hrun Hin. destruct (dataset_row _ _ _ _ _ _ _ _ _ Hrun Hin) as (i & _ & Hrow).
  apply make_row_fields in Hrow as (_ & _ & _ & _ & Hv & Hw & (p & Hp & Hr) & Hb).
  eexists _, _, p. rewrite <- bucket_rule_eq. repeat (split; [eassumption|]). exact Hb.
Qed.

Lemma null_injection_witness :
  let df := example_rows 24 false false false true in
  let w' := snd (build_dataset 24 false false false true empty_world) in
  let row := default [] (df !! 23%nat) in
  build_dataset 24 false false false true empty_world = (Ok df, w')
  /\ row ∈ df
  /\ exists id city segment,
       dict_get "id" row = Some (VInt id)
       /\ dict_get "city" row = Some city
       /\ dict_get "segment" row = Some segment
       /\ (true = true -> (city = VNone <-> id mod 23 = 0) /\ (segment = VNone <-> id mod 31 = 0))
       /\ (true = false -> city <> VNone /\ segment <> VNone).
Proof.
  intros df w' row.
  assert (Hrun : build_dataset 24 false false false true empty_world = (Ok df, w'))
    by (vm_compute; reflexivity).
  assert (Hin : row ∈ df)
    by (apply list_elem_of_lookup; exists 23%nat; vm_compute; reflexivity).
  split; [exact Hrun|]. split; [exact Hin|].
  exact (null_injection 24 false false false true empty_world df w' row Hrun Hin).
Defined.

Lemma derived_fields_witness :
  let df := example_rows 3 false false false false in
  let w' := snd (build_dataset 3 false false false false empty_world) in
  let row := default [] (df !! 1%nat) in
  build_dataset 3 false false false false empty_world = (Ok df, w')
  /\ row ∈ df
  /\ exists value weight product,
       dict_get "value" row = Some (VInt value)
       /\ dict_get "weight" row = Some (VFloat weight)
       /\ mul_int_float value weight = Ok product
       /\ dict_get "revenue" row = Some (VFloat (round product 2))
       /\ dict_get "bucket" row = Some (VStr (bucket_rule value)).
Proof.
  intros df w' row.
  assert (Hrun : build_dataset 3 false false false false empty_world = (Ok df, w'))
    by (vm_compute; reflexivity).
  assert (Hin : row ∈ df)
    by (apply list_elem_of_lookup; exists 1%nat; vm_compute; reflexivity).
  split; [exact Hrun|]. split; [exact Hin|].
  exact (derived_fields 3 false false false false empty_world df w' row Hrun Hin).
Defined.

(** ** The skewed [group] column *)

Lemma count_Forall2 {A B} (f : A -> bool) (g : B -> bool) l k :
  Forall2 (fun x y => f x = g y) l k -> count f l = count g k.
Proof. induction 1 as [|x y l k Hxy _ IH]; simpl; [reflexivity|]. rewrite Hxy, IH. reflexivity. Qed.

Lemma count_seq_shift (f : nat -> bool) (p : nat) :
  (forall x, f (x + p)%nat = f x) ->
  forall n a, count f (seq (a + p) n) = count f (seq a n).
Proof.
  intros Hf. induction n as [|n IH]; intros a; simpl; [reflexivity|].
  rewrite Hf. rewrite <- (IH (S a)). reflexivity.
Qed.

Lemma count_seq_period (f : nat -> bool) (p : nat) :
  (forall x, f (x + p)%nat = f x) ->
  forall q n a, count f (seq (a + q * p) n) = count f (seq a n).
Proof.
  intros Hf. induction q as [|q IH]; intros n a.
  - simpl. rewrite Nat.add_0_r. reflexivity.
  - replace (a + S q * p)%nat with ((a + q * p) + p)%nat by lia.
    rewrite count_seq_shift by assumption. apply IH.
Qed.

Lemma first_category_period x : first_category (x + 300) = first_category x.
Proof.
  unfold first_category. change (len groups) with 6.
  replace (Z.of_nat (x + 300)) with (Z.of_nat x + 3 * 100) by lia.
  rewrite Z.mod_add by lia.
  replace (Z.of_nat x + 3 * 100) with (Z.of_nat x + 50 * 6) by lia.
  rewrite Z.mod_add by lia. reflexivity.
Qed.

Lemma first_category_block (b : nat) :
  count first_category (seq (100 * b) 100) = 75%nat.
Proof.
  replace (100 * b)%nat with (100 * (b mod 3) + (b / 3) * 300)%nat.
  2:{ pose proof (Nat.div_mod_eq b 3). lia. }
  rewrite (count_seq_period _ 300 first_category_period).
  pose proof (Nat.mod_upper_bound b 3 ltac:(lia)) as Hr.
  destruct (b mod 3)%nat as [|[|[|r]]]; [vm_compute; reflexivity .. | lia].
Qed.

Lemma getitem_groups_first j g :
  0 <= j < 6 -> getitem groups j = Ok g -> String.eqb g "A" = (j =? 0).
Proof.
  intros Hj. assert (j = 0 \/ j = 1 \/ j = 2 \/ j = 3 \/ j = 4 \/ j = 5) as Hc by lia.
  destruct Hc as [->|[->|[->|[->|[->| ->]]]]]; vm_compute; intros E; injection E as <-; reflexivity.
Qed.

Lemma has_group_first wide hc im (i : nat) row :
  row_at true wide hc im i = Ok row -> has_group "A" row = first_category i.
Proof.
  intros Hrow. apply make_row_fields in Hrow as (_ & (g & Hg & Hg') & _).
  unfold has_group, first_category. rewrite Hg. cbn [andb] in Hg'.
  destruct (Z.of_nat i mod 100 <? 70).
  - subst g. reflexivity.
  - cbn [orb]. apply getitem_groups_first; [|exact Hg'].
    apply Z.mod_pos_bound. reflexivity.
Qed.

Lemma block_rows (k b : nat) (P : nat -> dict -> Prop) df :
  (b < k)%nat -> Forall2 P (seq 0 (100 * k)) df ->
  Forall2 P (seq (100 * b) 100) (block b df).
Proof.
  intros Hb Hall. unfold block.
  replace (seq (100 * b) 100) with (take 100 (drop (100 * b) (seq 0 (100 * k)))).
  - apply Forall2_take, Forall2_drop, Hall.
  - rewrite drop_seq, take_seq. f_equal. lia.
Qed.

Lemma skew_block_concrete :
  build_dataset 100 true false false false empty_world
  = (Ok (example_rows 100 true false false false),
     snd (build_dataset 100 true false false false empty_world))
  /\ count (has_group "A") (block 0 (example_rows 100 true false false false)) = 75%nat.
Proof. split; vm_compute; reflexivity. Qed.

Lemma skew_not_70_percent :
  ~ (forall (k : nat) wide hc im w df w' (b : nat),
       build_dataset (100 * Z.of_nat k) true wide hc im w = (Ok df, w') ->
       (b < k)%nat ->
       count (has_group "A") (block b df) = 70%nat).
Proof.
  intros Hclaim. destruct skew_block_concrete as (Hrun & Hcount).
  specialize (Hclaim 1%nat false false false _ _ _ 0%nat Hrun ltac:(lia)).
  rewrite Hcount in Hclaim. lia.
Qed.

(** C4, as the code has it: with [skew] and a row count that is a multiple
    of 100, the rows with [i % 100 < 70] carry the first category and the
    others cycle through [groups] by [i % 6]; five of those thirty land on
    the first category again, so that 75 rows of every block of 100 carry
    it.  Without [skew] every row cycles by [i % 6]. *)
Theorem group_column :
  (forall (k : nat) wide hc im w df w',
     build_dataset (100 * Z.of_nat k) true wide hc im w = (Ok df, w') ->
     (forall (i : nat) row, df !! i = Some row ->
        exists g, dict_get "group" row = Some (VStr g)
          /\ (Z.of_nat i mod 100 < 70 -> g = "A")
          /\ (70 <= Z.of_nat i mod 100 -> getitem groups (Z.of_nat i mod len groups) = Ok g))
     /\ (forall b : nat, (b < k)%nat -> count (has_group "A") (block b df) = 75%nat))
  /\ (forall row_count wide hc im w df w',
        build_dataset row_count false wide hc im w = (Ok df, w') ->
        forall (i : nat) row, df !! i = Some row ->
          exists g, dict_get "group" row = Some (VStr g)
            /\ getitem groups (Z.of_nat i mod len groups) = Ok g).
Proof.
  split.
  - intros k wide hc im w df w' Hrun. apply dataset_rows in Hrun.
    replace (Z.to_nat (100 * Z.of_nat k)) with (100 * k)%nat in Hrun by lia. split.
    + intros i row Hi.
      destruct (Forall2_lookup_r _ _ _ _ _ Hrun Hi) as (j & Hj & Hrow).
      apply lookup_seq in Hj as [-> _]. cbn [Nat.add] in Hrow.
      apply make_row_fields in Hrow as (_ & (g & Hg & Hg') & _).
      exists g. split; [exact Hg|]. cbn [andb] in Hg'.
      destruct (Z.ltb_spec (Z.of_nat i mod 100) 70); split; intros; try lia; assumption.
    + intros b Hb. rewrite <- (first_category_block b).
      symmetry. apply count_Forall2.
      eapply Forall2_impl; [apply (block_rows k b _ df Hb Hrun)|].
      intros i row Hrow. cbn beta in Hrow. symmetry. eapply has_group_first; eassumption.
  - intros row_count wide hc im w df w' Hrun i row Hi. apply dataset_rows in Hrun.
    destruct (Forall2_lookup_r _ _ _ _ _ Hrun Hi) as (j & Hj & Hrow).
    apply lookup_seq in Hj as [-> _]. cbn [Nat.add] in Hrow.
    apply make_row_fields in Hrow as (_ & (g & Hg & Hg') & _).
    exists g. split; [exact Hg | exact Hg'].
Qed.

Lemma group_column_witness :
  let df := example_rows 100 true false false false in
  let w' := snd (build_dataset (100 * Z.of_nat 1) true false false false empty_world) in
  build_dataset (100 * Z.of_nat 1) true false false false empty_world = (Ok df, w')
  /\ (0 < 1)%nat
  /\ count (has_group "A") (block 0 df) = 75%nat.
Proof.
  intros df w'.
  assert (Hrun : build_dataset (100 * Z.of_nat 1) true false false false empty_world
                 = (Ok df, w')) by (vm_compute; reflexivity).
  assert (Hlt : (0 < 1)%nat) by lia.
  split; [exact Hrun|]. split; [exact Hlt|].
  exact (proj2 (proj1 group_column 1%nat false false false empty_world df w' Hrun) 0%nat Hlt).
Defined.

(** ** The stream of the generator *)

Lemma draws_loop loc seed (m : nat) : forall (a : nat) acc w,
  cells w !! loc = Some (state_at seed a) ->
  for_each (seq a m) (fun _ xs => x ← rnd loc; mret (xs ++ [x])) acc w =
    (Ok (acc ++ map (fun k => unit_float (state_at seed (S k))) (seq a m)),
     World (<[loc := state_at seed (a + m)]> (cells w)) (calls w) (reads w) (log w)).
Proof.
  induction m as [|m IH]; intros a acc w Hc.
  - simpl. rewrite app_nil_r, Nat.add_0_r, list_insert_id by assumption.
    destruct w; reflexivity.
  - cbn [seq for_each map]. rewrite !bind_run, (rnd_run _ _ _ Hc).
    cbn [mret M_ret]. rewrite <- state_at_S. rewrite IH.
    + cbn [cells calls reads log]. rewrite list_insert_insert_eq, <- app_assoc.
      replace (S a + m)%nat with (a + S m)%nat by lia. reflexivity.
    + cbn [cells]. apply list_lookup_insert_eq. eapply lookup_lt_Some; eassumption.
Qed.

Lemma unit_float_value s : 0 <= s < 2 ^ 32 ->
  Float.is_finite (unit_float s) = true
  /\ (Float.to_Q (unit_float s) == s # 4294967296)%Q.
Proof.
  intros Hs. unfold unit_float. destruct (Z.eqb_spec s 0) as [->|Hne].
  - split; reflexivity.
  - split; [reflexivity|].
    assert (Hs' : 0 < s < 2 ^ 53) by lia.
    destruct (dyadic_pos_facts s Hs') as (Ha & Hpa & _ & Hid).
    unfold dyadic, Float.to_Q. set (a := 52 - Z.log2 s) in *.
    replace (0 <=? -32 - a) with false by (symmetry; apply Z.leb_gt; lia).
    cbn [cond_Zopp]. rewrite Hid. unfold Qeq. cbn [Qnum Qden].
    replace (- (-32 - a)) with (a + 32) by lia.
    assert (0 < 2 ^ (a + 32)) by (apply Z.pow_pos_nonneg; lia).
    rewrite Z2Pos.id by assumption. rewrite Z.pow_add_r by lia. lia.
Qed.

(** C7: the [k]-th call of a generator made by [lcg seed] returns the float
    [s / 2 ** 32] of the state [s] that the recurrence
    [s' = (1664525 * s + 1013904223) mod 2 ** 32] reaches after [k] steps
    from [seed & 0xFFFFFFFF]; the division is exact, so that the output is
    the rational [s / 2 ^ 32], in [0, 1), and depends on the seed and on [k]
    only. *)
Theorem lcg_stream :
  (forall seed (n : nat) w, exists w',
     (gen ← lcg seed; draws gen n) w =
       (Ok (map (fun k => unit_float (state_at seed (S k))) (seq 0 n)), w')
     /\ cells w' = (cells w ++ [state_at seed n]))
  /\ (forall seed (k : nat),
        state_at seed 0 = Z.land seed 0xFFFFFFFF
        /\ state_at seed (S k) = (1664525 * state_at seed k + 1013904223) mod 2 ^ 32)
  /\ (forall seed (k : nat),
        let x := unit_float (state_at seed k) in
        Float.is_finite x = true
        /\ (Float.to_Q x == state_at seed k # 4294967296)%Q
        /\ (0 <= Float.to_Q x)%Q /\ (Float.to_Q x < 1)%Q).
Proof.
  split; [|split].
  - intros seed n w. unfold lcg, draws. rewrite !bind_run. unfold new_cell.
    cbn [mret M_ret]. rewrite land_mask.
    rewrite (draws_loop (length (cells w)) seed n 0 []).
    + cbn [cells calls reads log app Nat.add]. eexists. split; [reflexivity|].
      cbn [cells]. rewrite insert_app_r_alt by lia. rewrite Nat.sub_diag. reflexivity.
    + cbn [cells]. rewrite lookup_app_r by lia. rewrite Nat.sub_diag. reflexivity.
  - intros seed k. split; [symmetry; apply land_mask | reflexivity].
  - intros seed k x. pose proof (state_at_range seed k) as Hr.
    destruct (unit_float_value _ Hr) as [Hfin Hq]. fold x in Hfin, Hq.
    split; [exact Hfin|]. split; [exact Hq|].
    rewrite Hq. unfold Qle, Qlt. cbn [Qnum Qden]. lia.
Qed.

(** ** [run_case], exactly *)

Section RunCase.

Variable H : host.
Variable name : string.
Variable f : nat -> option Z.

Lemma body_step x acc w :
  timed_body H name (invoke f) x acc w =
    match f (calls w) with
    | Some _ =>
        (Ok (acc ++ [Float.mul (Float.sub (perf_counter_at H (S (reads w)))
                                          (perf_counter_at H (reads w))) Float.thousand]),
         World (cells w) (S (calls w)) (S (S (reads w)))
               (log w ++ [EvClock (perf_counter_at H (reads w)); EvCall Timed name (f (calls w));
                          EvClock (perf_counter_at H (S (reads w)))]))
    | None =>
        (Raise (RuntimeError (none_message name)),
         World (cells w) (S (calls w)) (S (reads w))
               (log w ++ [EvClock (perf_counter_at H (reads w)); EvCall Timed name None]))
    end.
Proof.
  cbv [timed_body mbind M_bind mret M_ret perf_counter invoke emit raise cells calls reads log].
  destruct w as [ce ca re lo]. fold (none_message name).
  destruct (f ca) as [v|]; rewrite <- !app_assoc; reflexivity.
Qed.

Lemma timed_loop (xs : list Z) : forall acc w,
  for_each xs (timed_body H name (invoke f)) acc w =
    match first_none f (calls w) (length xs) with
    | None =>
        (Ok (acc ++ times_ms H (reads w) (length xs)),
         World (cells w) (calls w + length xs) (reads w + 2 * length xs)
               (log w ++ timed_events H name f (calls w) (reads w) (length xs)))
    | Some j =>
        (Raise (RuntimeError (none_message name)),
         World (cells w) (calls w + j + 1) (reads w + 2 * j + 1)
               (log w ++ timed_events H name f (calls w) (reads w) j
                  ++ [EvClock (perf_counter_at H (reads w + 2 * j));
                      EvCall Timed name None]))
    end.
Proof.
  induction xs as [|x xs IH]; intros acc w.
  - cbn. rewrite !app_nil_r, !Nat.add_0_r. destruct w; reflexivity.
  - cbn [for_each length first_none]. rewrite bind_run, body_step.
    destruct (f (calls w)) as [v|] eqn:Hf.
    + rewrite IH. cbn [cells calls reads log].
      destruct (first_none f (S (calls w)) (length xs)) as [j|]; cbn [fmap option_fmap option_map].
      * replace (calls w + S j + 1)%nat with (S (calls w) + j + 1)%nat by lia.
        replace (reads w + 2 * S j + 1)%nat with (S (S (reads w)) + 2 * j + 1)%nat by lia.
        replace (reads w + 2 * S j)%nat with (S (S (reads w)) + 2 * j)%nat by lia.
        cbn [timed_events]. rewrite Hf, <- !app_assoc. reflexivity.
      * replace (calls w + S (length xs))%nat with (S (calls w) + length xs)%nat by lia.
        replace (reads w + 2 * S (length xs))%nat
          with (S (S (reads w)) + 2 * length xs)%nat by lia.
        cbn [timed_events times_ms]. rewrite Hf, <- !app_assoc. reflexivity.
    + cbn [timed_events app]. rewrite !Nat.add_0_r.
      replace (calls w + 1)%nat with (S (calls w)) by lia.
      replace (reads w + 1)%nat with (S (reads w)) by lia. reflexivity.
Qed.

Lemma times_ms_length r k : length (times_ms H r k) = k.
Proof. revert r. induction k; intros r; simpl; [reflexivity | rewrite IHk; reflexivity]. Qed.

Lemma range_length n : length (range n) = Z.to_nat n.
Proof. unfold range. rewrite length_map, length_seq. reflexivity. Qed.

Lemma warmup_loop w :
  for_each (range 3) (fun _ (_ : unit) => out ← invoke f; emit (EvCall Warmup name out)) tt w =
    (Ok tt, World (cells w) (calls w + 3) (reads w) (log w ++ warm_events name f (calls w))).
Proof.
  destruct w as [ce ca re lo]. change (range 3) with [0; 1; 2].
  cbv [for_each mbind M_bind mret M_ret invoke emit cells calls reads log warm_events].
  rewrite <- !app_assoc. replace (ca + 3)%nat with (S (S (S ca))) by lia. reflexivity.
Qed.

Lemma run_case_eq iterations w :
  let n := Z.to_nat iterations in
  run_case H name (invoke f) iterations w =
    match first_none f (calls w + 3) n with
    | None =>
        (truediv_float_int (py_sum H (times_ms H (reads w) n)) (Z.of_nat n),
         World (cells w) (calls w + 3 + n) (reads w + 2 * n)
               (log w ++ warm_events name f (calls w)
                  ++ timed_events H name f (calls w + 3) (reads w) n))
    | Some j =>
        (Raise (RuntimeError (none_message name)),
         World (cells w) (calls w + 3 + j + 1) (reads w + 2 * j + 1)
               (log w ++ warm_events name f (calls w)
                  ++ timed_events H name f (calls w + 3) (reads w) j
                  ++ [EvClock (perf_counter_at H (reads w + 2 * j));
                      EvCall Timed name None]))
    end.
Proof.
  intros n.
  unfold run_case.
  rewrite bind_run, warmup_loop, bind_run, timed_loop. cbn [cells calls reads log].
  rewrite range_length. fold n.
  destruct (first_none f (calls w + 3) n) as [j|].
  - rewrite <- !app_assoc. reflexivity.
  - unfold lift. cbn [app]. unfold len. rewrite times_ms_length.
    rewrite <- !app_assoc. reflexivity.
Qed.

End RunCase.

(** ** [main] in two halves *)

Lemma print_loop H (results : list entry) w :
  for_each results (fun e (_ : unit) =>
    print ("| " +:+ e_case e +:+ " | " +:+ e_dataset e +:+ " | "
           +:+ format_2f H (pandasAvgMs e) +:+ "ms |")) tt w =
  (Ok tt, World (cells w) (calls w) (reads w)
     (log w ++ map (fun e => EvPrint ("| " +:+ e_case e +:+ " | " +:+ e_dataset e +:+ " | "
                                    +:+ format_2f H (pandasAvgMs e) +:+ "ms |")) results)).
Proof.
  revert w. induction results as [|e results IH]; intros w.
  - cbn. rewrite app_nil_r. destruct w; reflexivity.
  - cbn [for_each map]. rewrite bind_run. unfold print at 1, emit. rewrite IH.
    cbn [cells calls reads log]. rewrite <- app_assoc. reflexivity.
Qed.

Lemma main_eq H a w :
  main H a w =
    match measurements H a w with
    | (Ok results, w1) =>
        if writable H (json_out a) then
          (Ok tt, World (cells w1) (calls w1) (reads w1)
                    (log w1 ++ EvWrite (json_out a) (payload_of H a results)
                       :: map EvPrint (report_lines H a results)))
        else (Raise OSError, w1)
    | (Raise e, w1) => (Raise e, w1)
    end.
Proof.
  unfold main, measurements. rewrite !bind_run.
  destruct (build_dataset (rows a) false false false false w) as [[base|e] w1]; [|reflexivity].
  rewrite !bind_run.
  destruct (build_dataset (rows a) false false true false w1) as [[high_card|e] w2]; [|reflexivity].
  rewrite !bind_run.
  destruct (build_dataset (rows a) false false false true w2) as [[missing|e] w3]; [|reflexivity].
  cbv zeta. rewrite bind_run.
  destruct (for_each (cases H) _ [] w3) as [[results|e] w4]; [|reflexivity].
  rewrite bind_run. unfold dump. destruct (writable H (json_out a)); [|reflexivity].
  unfold emit at 1.
  do 5 (rewrite bind_run; unfold print at 1, emit at 1; cbn [cells calls reads log]).
  rewrite print_loop. cbn [cells calls reads log].
  unfold report_lines, payload_of. rewrite map_app, map_map. cbn [map app].
  rewrite <- !app_assoc. reflexivity.
Qed.

(** ** The null check *)

(** Counting events *)

Lemma count_app {A} (f : A -> bool) l k : count f (l ++ k) = (count f l + count f k)%nat.
Proof. induction l as [|x l IH]; simpl; [reflexivity|]. destruct (f x); rewrite IH; reflexivity. Qed.

Lemma count_timed_events H name f c r k :
  count is_warmup (timed_events H name f c r k) = 0%nat
  /\ count is_timed (timed_events H name f c r k) = k.
Proof.
  revert c r. induction k as [|k IH]; intros c r; simpl; [split; reflexivity|].
  destruct (IH (S c) (S (S r))) as [-> ->]. split; reflexivity.
Qed.

Lemma first_none_None f c k :
  first_none f c k = None -> forall i, (i < k)%nat -> f (c + i)%nat <> None.
Proof.
  revert c. induction k as [|k IH]; intros c Hn i Hi; [lia|].
  simpl in Hn. destruct (f c) as [v|] eqn:Hf; [|discriminate].
  destruct (first_none f (S c) k) eqn:Hk; [discriminate|].
  destruct i as [|i].
  - rewrite Nat.add_0_r, Hf. discriminate.
  - replace (c + S i)%nat with (S c + i)%nat by lia. apply (IH (S c) Hk). lia.
Qed.

Lemma first_none_Some f c k j :
  first_none f c k = Some j ->
  (j < k)%nat /\ f (c + j)%nat = None /\ first_none f c j = None.
Proof.
  revert c j. induction k as [|k IH]; intros c j Hn; [discriminate|].
  simpl in Hn. destruct (f c) as [v|] eqn:Hf.
  - destruct (first_none f (S c) k) as [j'|] eqn:Hk; [|discriminate].
    injection Hn as <-. destruct (IH _ _ Hk) as (Hj & Hnone & Hbefore).
    split; [lia|]. split.
    + replace (c + S j')%nat with (S c + j')%nat by lia. exact Hnone.
    + simpl. rewrite Hf, Hbefore. reflexivity.
  - injection Hn as <-. split; [lia|]. split; [rewrite Nat.add_0_r; exact Hf | reflexivity].
Qed.

Lemma timed_events_In H name f c r k ev :
  In ev (timed_events H name f c r k) ->
  is_write ev = false
  /\ forall nm, ev = EvCall Timed nm None -> exists i, (i < k)%nat /\ f (c + i)%nat = None.
Proof.
  revert c r. induction k as [|k IH]; intros c r Hin; [destruct Hin|].
  simpl in Hin. destruct Hin as [<-|[<-|[<-|Hin]]].
  - split; [reflexivity | discriminate].
  - split; [reflexivity|]. intros nm E. injection E as _ E. exists 0%nat.
    rewrite Nat.add_0_r. split; [lia | exact E].
  - split; [reflexivity | discriminate].
  - destruct (IH _ _ Hin) as [Hw Hn]. split; [exact Hw|].
    intros nm E. destruct (Hn nm E) as (i & Hi & Hf). exists (S i).
    replace (c + S i)%nat with (S c + i)%nat by lia. split; [lia | exact Hf].
Qed.

Lemma timed_events_no_None H name f c r k nm :
  first_none f c k = None -> ~ In (EvCall Timed nm None) (timed_events H name f c r k).
Proof.
  intros Hn Hin. apply timed_events_In in Hin as [_ Hin].
  destruct (Hin nm eq_refl) as (i & Hi & Hf). exact (first_none_None _ _ _ Hn i Hi Hf).
Qed.

(** The null check, compositionally *)

Lemma null_fatal_nil err : null_fatal err [].
Proof. split; [constructor | intros nm []]. Qed.

Lemma null_fatal_app err evs1 evs2 :
  null_fatal None evs1 -> null_fatal err evs2 -> null_fatal err (evs1 ++ evs2).
Proof.
  intros [Hw1 Hn1] [Hw2 Hn2]. split; [apply Forall_app; split; assumption|].
  intros nm Hin. apply in_app_or in Hin as [Hin|Hin].
  - destruct (Hn1 nm Hin) as [E _]. discriminate.
  - destruct (Hn2 nm Hin) as [E Hl]. split; [exact E|].
    rewrite last_app, Hl. reflexivity.
Qed.

Lemma rnc_ret {A} (a : A) : respects_null_check (mret a).
Proof. intros w. exists []. cbn. rewrite app_nil_r. split; [reflexivity | apply null_fatal_nil]. Qed.

Lemma rnc_lift {A} (r : result A) : respects_null_check (lift r).
Proof. intros w. exists []. cbn. rewrite app_nil_r. split; [reflexivity | apply null_fatal_nil]. Qed.

Lemma rnc_bind {A B} (c : M A) (f : A -> M B) :
  respects_null_check c -> (forall a, respects_null_check (f a)) ->
  respects_null_check (c ≫= f).
Proof.
  intros Hc Hf w. destruct (Hc w) as (evs1 & Hl1 & Hn1).
  rewrite bind_run. destruct (c w) as [[a|e] w1]; cbn [fst snd failure] in *.
  - destruct (Hf a w1) as (evs2 & Hl2 & Hn2). exists (evs1 ++ evs2).
    rewrite Hl2, Hl1, app_assoc. split; [reflexivity|].
    apply null_fatal_app; assumption.
  - exists evs1. split; assumption.
Qed.

Lemma rnc_for_each {A S} (xs : list A) (body : A -> S -> M S) :
  (forall x s, respects_null_check (body x s)) ->
  forall s, respects_null_check (for_each xs body s).
Proof.
  intros Hb. induction xs as [|x xs IH]; intros s.
  - apply rnc_ret.
  - cbn [for_each]. apply rnc_bind; [apply Hb | apply IH].
Qed.

Lemma rnc_build_dataset n skew wide hc im :
  respects_null_check (build_dataset n skew wide hc im).
Proof.
  intros w. destruct (build_dataset_run n skew wide hc im w) as (rows & -> & _).
  exists []. cbn. rewrite app_nil_r. split; [reflexivity | apply null_fatal_nil].
Qed.

Lemma rnc_run_case H name f iterations :
  respects_null_check (run_case H name (invoke f) iterations).
Proof.
  intros w. rewrite run_case_eq.
  destruct (first_none f (calls w + 3) (Z.to_nat iterations)) as [j|] eqn:Hfn.
  - destruct (first_none_Some _ _ _ _ Hfn) as (_ & _ & Hbefore).
    eexists. cbn [fst snd log failure]. split; [reflexivity|]. split.
    + apply Forall_app. split; [repeat constructor|].
      apply Forall_app. split; [|repeat constructor].
      apply Forall_forall. intros ev Hin. apply list_elem_of_In, timed_events_In in Hin. apply Hin.
    + intros nm Hin. rewrite !last_app. cbn [last].
      apply in_app_or in Hin as [Hin|Hin].
      { destruct Hin as [E|[E|[E|[]]]]; discriminate. }
      apply in_app_or in Hin as [Hin|Hin].
      { exfalso. exact (timed_events_no_None _ _ _ _ _ _ _ Hbefore Hin). }
      destruct Hin as [E|[E|[]]]; [discriminate|]. injection E as <-. split; reflexivity.
  - eexists. cbn [fst snd log]. split; [reflexivity|]. split.
    + apply Forall_app. split; [repeat constructor|].
      apply Forall_forall. intros ev Hin. apply list_elem_of_In, timed_events_In in Hin. apply Hin.
    + intros nm Hin. exfalso.
      apply in_app_or in Hin as [Hin|Hin].
      { destruct Hin as [E|[E|[E|[]]]]; discriminate. }
      exact (timed_events_no_None _ _ _ _ _ _ _ Hfn Hin).
Qed.

Lemma rnc_measure_case H datasets a c :
  respects_null_check (measure_case H datasets a c).
Proof.
  unfold measure_case. apply rnc_bind; [apply rnc_lift|]. intros df.
  apply rnc_bind.
  - apply rnc_for_each. intros x ras. unfold round_body.
    apply rnc_bind; [apply rnc_run_case|]. intros avg. apply rnc_ret.
  - intros ras. apply rnc_bind; [apply rnc_lift|]. intros avg. apply rnc_ret.
Qed.

Lemma rnc_measurements H a : respects_null_check (measurements H a).
Proof.
  unfold measurements. repeat (apply rnc_bind; [apply rnc_build_dataset|]; intros ?).
  apply rnc_for_each. intros c results. unfold case_body.
  apply rnc_bind; [apply rnc_measure_case|]. intros e. apply rnc_ret.
Qed.

Lemma events_since_app w w' evs :
  log w' = (log w ++ evs) -> events_since w w' = evs.
Proof. intros E. unfold events_since. rewrite E, drop_app_length. reflexivity. Qed.

(** C8, as the code has it: when a timed invocation returns None, the run
    ends with the [RuntimeError] of that case, that invocation is the last
    thing the run did (nothing is invoked again, nothing is retried), and no
    payload was written. *)
Theorem timed_null_is_fatal H a w r w' nm :
  main H a w = (r, w') ->
  In (EvCall Timed nm None) (events_since w w') ->
  r = Raise (RuntimeError (none_message nm))
  /\ last (log w') = Some (EvCall Timed nm None)
  /\ Forall (fun ev => is_write ev = false) (events_since w w').
Proof.
  rewrite main_eq. destruct (rnc_measurements H a w) as (evs & Hlog & Hw & Hn).
  destruct (measurements H a w) as [[results|e] w1]; cbn [fst snd failure] in *.
  - assert (Hno : ~ In (EvCall Timed nm None) evs).
    { intros Hin. destruct (Hn nm Hin) as [E _]. discriminate. }
    destruct (writable H (json_out a)); intros E; injection E as <- <-.
    + rewrite (events_since_app w _ (evs ++ EvWrite (json_out a) (payload_of H a results)
                                       :: map EvPrint (report_lines H a results))).
      2:{ cbn [log]. rewrite Hlog, <- app_assoc. reflexivity. }
      intros Hin. exfalso. apply in_app_or in Hin as [Hin|Hin]; [exact (Hno Hin)|].
      destruct Hin as [E|Hin]; [discriminate|].
      apply in_map_iff in Hin as (l & E & _). discriminate.
    + rewrite (events_since_app w _ evs Hlog). intros Hin. exfalso. exact (Hno Hin).
  - intros E. injection E as <- <-. rewrite (events_since_app w _ evs Hlog).
    intros Hin. destruct (Hn nm Hin) as [Ee Hl]. injection Ee as ->.
    split; [reflexivity|]. split; [|exact Hw].
    rewrite Hlog, last_app, Hl. reflexivity.
Qed.

Lemma timed_null_is_fatal_witness :
  let run := main timed_call_none_host (example_args 1) empty_world in
  main timed_call_none_host (example_args 1) empty_world = (fst run, snd run)
  /\ In (EvCall Timed "groupby_mean" None) (events_since empty_world (snd run))
  /\ fst run = Raise (RuntimeError (none_message "groupby_mean"))
  /\ last (log (snd run)) = Some (EvCall Timed "groupby_mean" None)
  /\ Forall (fun ev => is_write ev = false) (events_since empty_world (snd run)).
Proof.
  intros run.
  assert (Hrun : main timed_call_none_host (example_args 1) empty_world = (fst run, snd run))
    by (unfold run; destruct (main _ _ _); reflexivity).
  assert (Hin : In (EvCall Timed "groupby_mean" None) (events_since empty_world (snd run)))
    by (vm_compute; do 4 right; left; reflexivity).
  split; [exact Hrun|]. split; [exact Hin|].
  exact (timed_null_is_fatal timed_call_none_host (example_args 1) empty_world
           (fst run) (snd run) "groupby_mean" Hrun Hin).
Defined.

(** ** Successful runs *)

Lemma run_case_ok H name f iterations w avg w' :
  run_case H name (invoke f) iterations w = (Ok avg, w') ->
  let n := Z.to_nat iterations in
  log w' = log w ++ warm_events name f (calls w)
             ++ timed_events H name f (calls w + 3) (reads w) n
  /\ truediv_float_int (py_sum H (times_ms H (reads w) n)) (Z.of_nat n) = Ok avg
  /\ cells w' = cells w.
Proof.
  rewrite run_case_eq. intros E n. fold n in E.
  destruct (first_none f (calls w + 3) n); [discriminate|].
  injection E as E <-. cbn [log cells]. repeat split. exact E.
Qed.

Section Rounds.

Variable H : host.
Variable a : args.
Variable c : case.
Variable df : DataFrame.

Lemma rounds_loop_ok (xs : list Z) : forall acc w ras w',
  for_each xs (round_body H a c df) acc w = (Ok ras, w') ->
  length ras = (length acc + length xs)%nat
  /\ exists evs, log w' = log w ++ evs
       /\ count is_warmup evs = (3 * length xs)%nat
       /\ count is_timed evs = (length xs * Z.to_nat (iters a))%nat.
Proof.
  induction xs as [|x xs IH]; intros acc w ras w' E.
  - injection E as <- <-. split; [cbn; lia|]. exists []. rewrite app_nil_r.
    repeat split.
  - cbn [for_each] in E. rewrite bind_run in E. unfold round_body at 1 in E.
    rewrite bind_run in E.
    destruct (run_case H (name c) (invoke (fn c df)) (iters a) w) as [[avg|e] w1] eqn:Hrun;
      [|discriminate].
    cbn [mret M_ret] in E. apply IH in E as (Hlen & evs & Hlog & Hwarm & Htimed).
    apply run_case_ok in Hrun as (Hlog1 & _ & _).
    split; [rewrite Hlen, length_app; cbn; lia|].
    eexists. split; [rewrite Hlog, Hlog1, <- !app_assoc; reflexivity|].
    rewrite !count_app.
    destruct (count_timed_events H (name c) (fn c df) (calls w + 3) (reads w)
                (Z.to_nat (iters a)))
      as [-> ->].
    rewrite Hwarm, Htimed. cbn [length warm_events count is_warmup is_timed]. split; lia.
Qed.

End Rounds.

Lemma measure_case_ok H datasets a c w e w' :
  measure_case H datasets a c w = (Ok e, w') ->
  e_case e = name c /\ e_dataset e = dataset c
  /\ median (pandasRoundAverages e) = Ok (pandasAvgMs e)
  /\ length (pandasRoundAverages e) = Z.to_nat (rounds a)
  /\ exists evs, log w' = log w ++ evs
       /\ count is_warmup evs = (3 * Z.to_nat (rounds a))%nat
       /\ count is_timed evs = (Z.to_nat (rounds a) * Z.to_nat (iters a))%nat.
Proof.
  unfold measure_case. rewrite bind_run. unfold lift at 1.
  destruct (datasets !! dataset c) as [df|]; [|discriminate].
  rewrite bind_run.
  destruct (for_each (range (rounds a)) _ [] w) as [[ras|err] w1] eqn:Hloop; [|discriminate].
  rewrite bind_run. unfold lift.
  destruct (median ras) as [avg|err] eqn:Hmed; [|discriminate].
  cbn [mret M_ret]. intros E. injection E as <- <-. cbn [e_case e_dataset pandasAvgMs pandasRoundAverages].
  apply rounds_loop_ok in Hloop as (Hlen & evs & Hlog & Hwarm & Htimed).
  rewrite range_length in *. cbn [length Nat.add] in Hlen.
  repeat split; try assumption. exists evs. repeat split; assumption.
Qed.

Lemma cases_loop_ok H datasets a (cs : list case) : forall acc w results w',
  for_each cs (case_body H datasets a) acc w = (Ok results, w') ->
  exists new, results = acc ++ new
    /\ map e_case new = map name cs
    /\ map e_dataset new = map dataset cs
    /\ Forall (fun e => median (pandasRoundAverages e) = Ok (pandasAvgMs e)
                        /\ length (pandasRoundAverages e) = Z.to_nat (rounds a)) new.
Proof.
  induction cs as [|c cs IH]; intros acc w results w' E.
  - injection E as <- <-. exists []. rewrite app_nil_r. repeat split. constructor.
  - cbn [for_each] in E. rewrite bind_run in E. unfold case_body at 1 in E.
    rewrite bind_run in E.
    destruct (measure_case H datasets a c w) as [[e|err] w1] eqn:Hm; [|discriminate].
    cbn [mret M_ret] in E. apply IH in E as (new & -> & Hn & Hd & Hall).
    apply measure_case_ok in Hm as (Hc & Hds & Hmed & Hlen & _).
    exists (e :: new). rewrite <- app_assoc. split; [reflexivity|].
    cbn [map]. rewrite Hn, Hd, Hc, Hds. repeat split. constructor; [split|]; assumption.
Qed.

Lemma measurements_ok H a w results w' :
  measurements H a w = (Ok results, w') ->
  map e_case results = map name (cases H)
  /\ map e_dataset results = map dataset (cases H)
  /\ Forall (fun e => median (pandasRoundAverages e) = Ok (pandasAvgMs e)
                      /\ length (pandasRoundAverages e) = Z.to_nat (rounds a)) results.
Proof.
  unfold measurements. rewrite !bind_run.
  destruct (build_dataset (rows a) false false false false w) as [[base|e] w1]; [|discriminate].
  rewrite !bind_run.
  destruct (build_dataset (rows a) false false true false w1) as [[high_card|e] w2]; [|discriminate].
  rewrite !bind_run.
  destruct (build_dataset (rows a) false false false true w2) as [[missing|e] w3]; [|discriminate].
  cbv zeta. intros E. apply cases_loop_ok in E as (new & -> & H1 & H2 & H3).
  repeat split; assumption.
Qed.

(** C9: a run that completes writes one payload; its results name the
    registered cases and their datasets in registration order, each robust
    average is the median of the entry's round averages, and [cases] is the
    length of the results, 10. *)
Theorem results_in_registration_order H a w w' :
  main H a w = (Ok tt, w') ->
  exists p pre post,
    events_since w w' = pre ++ EvWrite (json_out a) p :: post
    /\ Forall (fun ev => is_write ev = false) pre
    /\ Forall (fun ev => is_write ev = false) post
    /\ map e_case (p_results p) = map name (cases H)
    /\ map e_dataset (p_results p) = map dataset (cases H)
    /\ Forall (fun e => median (pandasRoundAverages e) = Ok (pandasAvgMs e)) (p_results p)
    /\ p_cases p = len (p_results p)
    /\ p_cases p = 10.
Proof.
  rewrite main_eq. destruct (rnc_measurements H a w) as (evs & Hlog & Hw & _).
  destruct (measurements H a w) as [[results|e] w1] eqn:Hm; [|discriminate].
  cbn [fst snd] in *.
  destruct (writable H (json_out a)); [|discriminate].
  intros E. injection E as <-.
  apply measurements_ok in Hm as (Hn & Hd & Hall).
  exists (payload_of H a results), evs, (map EvPrint (report_lines H a results)).
  split.
  { apply events_since_app. cbn [log]. rewrite Hlog, <- app_assoc. reflexivity. }
  split; [exact Hw|]. split.
  { apply Forall_forall. intros ev Hin. apply list_elem_of_In, in_map_iff in Hin as (l & <- & _).
    reflexivity. }
  cbn [payload_of p_results p_cases]. split; [exact Hn|]. split; [exact Hd|]. split.
  { eapply Forall_impl; [exact Hall|]. intros e He. apply He. }
  split; [reflexivity|].
  unfold len. rewrite <- (length_map e_case), Hn, length_map. reflexivity.
Qed.

Lemma results_in_registration_order_witness :
  let w' := snd (main demo_host (example_args 1) empty_world) in
  main demo_host (example_args 1) empty_world = (Ok tt, w')
  /\ exists p pre post,
       events_since empty_world w' = pre ++ EvWrite (json_out (example_args 1)) p :: post
       /\ Forall (fun ev => is_write ev = false) pre
       /\ Forall (fun ev => is_write ev = false) post
       /\ map e_case (p_results p) = map name (cases demo_host)
       /\ map e_dataset (p_results p) = map dataset (cases demo_host)
       /\ Forall (fun e => median (pandasRoundAverages e) = Ok (pandasAvgMs e)) (p_results p)
       /\ p_cases p = len (p_results p)
       /\ p_cases p = 10.
Proof.
  intros w'.
  assert (Hrun : main demo_host (example_args 1) empty_world = (Ok tt, w'))
    by (vm_compute; reflexivity).
  split; [exact Hrun|].
  exact (results_in_registration_order demo_host (example_args 1) empty_world w' Hrun).
Defined.

(** ** [sorted] and [median] *)

Lemma ltb_asym x y : Float.ltb x y = true -> Float.ltb y x = false.
Proof.
  unfold Float.ltb, SFltb, SFcompare.
  destruct x as [[]|[]| |[] mx ex], y as [[]|[]| |[] my ey];
    try reflexivity; try discriminate;
    change (Pcompare mx my Eq) with (Pos.compare mx my);
    change (Pcompare my mx Eq) with (Pos.compare my mx);
    rewrite (Z.compare_antisym ex ey), (Pos.compare_antisym mx my);
    destruct (ex ?= ey), (Pos.compare mx my); cbn; congruence.
Qed.

Lemma insert_perm x l : Permutation (x :: l) (insert x l).
Proof.
  induction l as [|y l IH]; cbn; [reflexivity|].
  destruct (Float.ltb x y); [reflexivity|].
  rewrite perm_swap. apply perm_skip, IH.
Qed.

Lemma sorted_perm_acc values : forall acc,
  Permutation (acc ++ values) (fold_left (fun acc x => insert x acc) values acc).
Proof.
  induction values as [|x values IH]; intros acc; cbn.
  - rewrite app_nil_r. reflexivity.
  - rewrite <- IH. rewrite <- insert_perm. symmetry. apply Permutation_middle.
Qed.

Lemma sorted_perm values : Permutation values (sorted values).
Proof. apply (sorted_perm_acc values []). Qed.

Lemma insert_hd x y l : fle y x -> HdRel fle y l -> HdRel fle y (insert x l).
Proof.
  intros Hyx Hl. destruct l as [|z l]; cbn; [constructor; exact Hyx|].
  destruct (Float.ltb x z); constructor; [exact Hyx|]. inversion Hl; assumption.
Qed.

Lemma insert_sorted x l : Sorted fle l -> Sorted fle (insert x l).
Proof.
  induction 1 as [|y l Hs IH Hhd]; cbn; [repeat constructor|].
  destruct (Float.ltb x y) eqn:Hxy.
  - constructor; [constructor; assumption|]. constructor. apply ltb_asym, Hxy.
  - constructor; [exact IH|]. apply insert_hd; [exact Hxy | exact Hhd].
Qed.

Lemma sorted_sorted values : Sorted fle (sorted values).
Proof.
  unfold sorted. assert (Hacc : Sorted fle []) by constructor. revert Hacc.
  generalize (@nil float). induction values as [|x values IH]; intros acc Hacc; cbn.
  - exact Hacc.
  - apply IH, insert_sorted, Hacc.
Qed.

Lemma lex_not_lt_trans e1 m1 e2 m2 e3 m3 :
  lex e2 m2 e1 m1 <> Lt -> lex e3 m3 e2 m2 <> Lt -> lex e3 m3 e1 m1 <> Lt.
Proof.
  unfold lex.
  destruct (Z.compare_spec e2 e1), (Z.compare_spec e3 e2), (Z.compare_spec e3 e1);
    try lia; try congruence; subst;
    destruct (Pos.compare_spec m2 m1), (Pos.compare_spec m3 m2), (Pos.compare_spec m3 m1);
    try lia; congruence.
Qed.

Lemma lex_not_gt_trans e1 m1 e2 m2 e3 m3 :
  lex e2 m2 e1 m1 <> Gt -> lex e3 m3 e2 m2 <> Gt -> lex e3 m3 e1 m1 <> Gt.
Proof.
  unfold lex.
  destruct (Z.compare_spec e2 e1), (Z.compare_spec e3 e2), (Z.compare_spec e3 e1);
    try lia; try congruence; subst;
    destruct (Pos.compare_spec m2 m1), (Pos.compare_spec m3 m2), (Pos.compare_spec m3 m1);
    try lia; congruence.
Qed.

Lemma ltb_finite_pos m1 e1 m2 e2 :
  Float.ltb (S754_finite false m1 e1) (S754_finite false m2 e2) = false
  <-> lex e1 m1 e2 m2 <> Lt.
Proof.
  unfold Float.ltb, SFltb, SFcompare, lex. change (Pcompare m1 m2 Eq) with (Pos.compare m1 m2).
  destruct (e1 ?= e2), (Pos.compare m1 m2); cbn; split; congruence.
Qed.

Lemma ltb_finite_neg m1 e1 m2 e2 :
  Float.ltb (S754_finite true m1 e1) (S754_finite true m2 e2) = false
  <-> lex e1 m1 e2 m2 <> Gt.
Proof.
  unfold Float.ltb, SFltb, SFcompare, lex. change (Pcompare m1 m2 Eq) with (Pos.compare m1 m2).
  destruct (e1 ?= e2), (Pos.compare m1 m2); cbn; split; congruence.
Qed.

Lemma fle_trans x y z :
  Float.is_nan y = false -> fle x y -> fle y z -> fle x z.
Proof.
  unfold fle. intros Hy Hxy Hyz.
  destruct x as [[]|[]| |[] mx ex], y as [[]|[]| |[] my ey], z as [[]|[]| |[] mz ez];
    try reflexivity; try discriminate.
  - apply ltb_finite_neg. apply ltb_finite_neg in Hxy, Hyz.
    eapply lex_not_gt_trans; eassumption.
  - apply ltb_finite_pos. apply ltb_finite_pos in Hxy, Hyz.
    eapply lex_not_lt_trans; eassumption.
Qed.

Lemma insert_strongly_sorted x l :
  Forall (fun y => Float.is_nan y = false) l ->
  StronglySorted fle l -> StronglySorted fle (insert x l).
Proof.
  intros Hnan Hs. induction Hs as [|y l Hs IH Hall]; cbn; [repeat constructor|].
  apply Forall_cons in Hnan as [Hy Hnan].
  destruct (Float.ltb x y) eqn:Hxy.
  - constructor; [constructor; assumption|].
    assert (Hle : fle x y) by (apply ltb_asym, Hxy).
    constructor; [exact Hle|].
    eapply Forall_impl; [exact Hall|]. intros z Hz. cbn beta in Hz.
    exact (fle_trans x y z Hy Hle Hz).
  - constructor; [apply IH, Hnan|].
    rewrite <- (insert_perm x l). constructor; [exact Hxy | exact Hall].
Qed.

Lemma sorted_strongly_sorted values :
  Forall (fun y => Float.is_nan y = false) values -> StronglySorted fle (sorted values).
Proof.
  unfold sorted. intros Hnan.
  assert (Hacc : StronglySorted fle [] /\ Forall (fun y => Float.is_nan y = false) [])
    by (split; constructor).
  revert Hacc. generalize (@nil float).
  induction Hnan as [|x values Hx Hnan IH]; intros acc [Hs Hn]; cbn.
  - exact Hs.
  - apply IH. split; [apply insert_strongly_sorted; assumption|].
    rewrite <- (insert_perm x acc). constructor; assumption.
Qed.

(** C2: for a non-empty list, [median] returns the middle element of the
    sorted list when the length is odd and the float mean [(a + b) / 2.0] of
    the two central elements when it is even; the sorted list is an ordered
    permutation of the list.  In particular [median([3, 1, 2]) = 2] and
    [median([4, 1, 3, 2]) = 2.5]. *)
Theorem median_correct :
  (forall values, values <> [] ->
     let s := sorted values in
     Permutation values s
     /\ Sorted fle s
     /\ (Forall (fun x => Float.is_nan x = false) values -> StronglySorted fle s)
     /\ (len values mod 2 = 1 ->
           exists x, s !! Z.to_nat (len values / 2) = Some x /\ median values = Ok x)
     /\ (len values mod 2 = 0 ->
           exists a b, s !! Z.to_nat (len values / 2 - 1) = Some a
             /\ s !! Z.to_nat (len values / 2) = Some b
             /\ median values = Ok (Float.div (Float.add a b) Float.two)))
  /\ median [float_lit 3; float_lit 1; float_lit 2] = Ok (float_lit 2)
  /\ (exists x, median [float_lit 4; float_lit 1; float_lit 3; float_lit 2] = Ok x
                /\ (Float.to_Q x == 5 # 2)%Q).
Proof.
  split; [|split; [reflexivity | eexists; split; reflexivity]].
  intros values Hne s.
  pose proof (sorted_perm values) as Hperm. fold s in Hperm.
  assert (Hlen : len s = len values).
  { unfold len. rewrite (Permutation_length Hperm). reflexivity. }
  assert (Hpos : 0 < len values).
  { unfold len. destruct values; [congruence | cbn; lia]. }
  split; [exact Hperm|]. split; [apply sorted_sorted|].
  split; [apply sorted_strongly_sorted|].
  assert (Hmed : median values =
    if len s mod 2 =? 1 then getitem s (len s / 2)
    else a ← getitem s (len s / 2 - 1); b ← getitem s (len s / 2);
         float_truediv (Float.add a b) Float.two).
  { destruct values; [congruence | reflexivity]. }
  rewrite Hmed, Hlen. split.
  - intros Hodd. rewrite Hodd. cbn [Z.eqb Pos.eqb].
    destruct (getitem_ok s (len values / 2)) as (x & Hx & Hg).
    { rewrite Hlen. split; [apply Z.div_pos; lia | apply Z.div_lt_upper_bound; lia]. }
    exists x. split; assumption.
  - intros Heven. rewrite Heven. cbn [Z.eqb].
    assert (Hhalf : 1 <= len values / 2).
    { pose proof (Z.div_mod (len values) 2 ltac:(lia)). lia. }
    destruct (getitem_ok s (len values / 2 - 1)) as (a & Ha & Hga).
    { rewrite Hlen. split; [lia|]. assert (len values / 2 < len values); [|lia].
      apply Z.div_lt_upper_bound; lia. }
    destruct (getitem_ok s (len values / 2)) as (b & Hb & Hgb).
    { rewrite Hlen. split; [lia | apply Z.div_lt_upper_bound; lia]. }
    exists a, b. rewrite Hga, Hgb. repeat split; assumption.
Qed.

Lemma median_correct_witness :
  let values := [float_lit 4; float_lit 1; float_lit 3; float_lit 2] in
  values <> []
  /\ len values mod 2 = 0
  /\ exists a b, sorted values !! Z.to_nat (len values / 2 - 1) = Some a
       /\ sorted values !! Z.to_nat (len values / 2) = Some b
       /\ median values = Ok (Float.div (Float.add a b) Float.two).
Proof.
  intros values.
  assert (Hne : values <> []) by discriminate.
  assert (Heven : len values mod 2 = 0) by reflexivity.
  split; [exact Hne|]. split; [exact Heven|].
  exact (proj2 (proj2 (proj2 (proj2 (proj1 median_correct values Hne)))) Heven).
Defined.

(** ** Warmup *)

(** C3, as the code has it: every call of [run_case], that is every round,
    starts with three warmup invocations whose results are dropped; no clock
    is read around them, and the round average is computed from the clock
    readings around the timed invocations alone.  A case that completes has
    [max(rounds, 0)] round averages and was warmed up three times per
    round. *)
Theorem warmup_before_each_round :
  (forall H name f iterations w r w',
     run_case H name (invoke f) iterations w = (r, w') ->
     let n := Z.to_nat iterations in
     exists rest,
       events_since w w' = warm_events name f (calls w) ++ rest
       /\ count is_warmup rest = 0%nat
       /\ forall avg, r = Ok avg ->
            rest = timed_events H name f (calls w + 3) (reads w) n
            /\ truediv_float_int (py_sum H (times_ms H (reads w) n)) (Z.of_nat n) = Ok avg)
  /\ (forall H datasets a c w e w',
        measure_case H datasets a c w = (Ok e, w') ->
        length (pandasRoundAverages e) = Z.to_nat (rounds a)
        /\ count is_warmup (events_since w w') = (3 * Z.to_nat (rounds a))%nat
        /\ count is_timed (events_since w w')
           = (Z.to_nat (rounds a) * Z.to_nat (iters a))%nat).
Proof.
  split.
  - intros H name f iterations w r w' E n. rewrite run_case_eq in E. fold n in E.
    destruct (first_none f (calls w + 3) n) as [j|]; injection E as <- <-.
    + eexists. split; [apply events_since_app; reflexivity|]. split; [|discriminate].
      rewrite count_app. destruct (count_timed_events H name f (calls w + 3) (reads w) j) as [-> _].
      reflexivity.
    + eexists. split; [apply events_since_app; reflexivity|]. split.
      * apply count_timed_events.
      * intros avg E. split; [reflexivity | exact E].
  - intros H datasets a c w e w' E.
    apply measure_case_ok in E as (_ & _ & _ & Hlen & evs & Hlog & Hwarm & Htimed).
    rewrite (events_since_app _ _ _ Hlog). repeat split; assumption.
Qed.

Lemma two_rounds_six_warmups :
  let c := Case "groupby_mean" "base" (pandas demo_host "groupby_mean") in
  let run := measure_case demo_host {["base" := []]} (example_args 2) c empty_world in
  run = (Ok (Entry "groupby_mean" "base" Float.thousand [Float.thousand; Float.thousand]),
         snd run)
  /\ count is_warmup (events_since empty_world (snd run)) = 6%nat.
Proof. split; vm_compute; reflexivity. Qed.

Lemma negative_rounds_no_average :
  let c := Case "groupby_mean" "base" (pandas demo_host "groupby_mean") in
  let run := measure_case demo_host {["base" := []]} (example_args (-1)) c empty_world in
  run = (Ok (Entry "groupby_mean" "base" Float.zero []), snd run).
Proof. vm_compute. reflexivity. Qed.

Lemma warmup_not_once_per_case :
  ~ (forall H datasets a c w e w',
       measure_case H datasets a c w = (Ok e, w') ->
       count is_warmup (events_since w w') = 3%nat)
  /\ ~ (forall H datasets a c w e w',
         measure_case H datasets a c w = (Ok e, w') ->
         len (pandasRoundAverages e) = rounds a).
Proof.
  split; intros Hclaim.
  - destruct two_rounds_six_warmups as (Hrun & Hcount).
    apply Hclaim in Hrun. rewrite Hcount in Hrun. lia.
  - pose proof negative_rounds_no_average as Hrun. cbv zeta in Hrun.
    apply Hclaim in Hrun. discriminate Hrun.
Qed.

Lemma warmup_null_goes_unnoticed :
  let run := main first_call_none_host (example_args 1) empty_world in
  run = (Ok tt, snd run)
  /\ events_since empty_world (snd run) !! 0%nat = Some (EvCall Warmup "groupby_mean" None)
  /\ existsb is_write (events_since empty_world (snd run)) = true.
Proof. split; [|split]; vm_compute; reflexivity. Qed.

Lemma null_in_warmup_not_fatal :
  ~ (forall H a w r w' ph nm,
       main H a w = (r, w') ->
       In (EvCall ph nm None) (events_since w w') ->
       (exists msg, r = Raise (RuntimeError msg))
       /\ Forall (fun ev => is_write ev = false) (events_since w w')).
Proof.
  intros Hclaim. destruct warmup_null_goes_unnoticed as (Hrun & Hnone & Hwrite).
  apply list_elem_of_lookup_2, list_elem_of_In in Hnone.
  destruct (Hclaim _ _ _ _ _ _ _ Hrun Hnone) as [[msg Hmsg] _]. discriminate Hmsg.
Qed.

Lemma warmup_before_each_round_witness :
  let c := Case "groupby_mean" "base" (pandas demo_host "groupby_mean") in
  let run := measure_case demo_host {["base" := []]} (example_args 2) c empty_world in
  let e := Entry "groupby_mean" "base" Float.thousand [Float.thousand; Float.thousand] in
  run = (Ok e, snd run)
  /\ length (pandasRoundAverages e) = Z.to_nat (rounds (example_args 2))
  /\ count is_warmup (events_since empty_world (snd run))
     = (3 * Z.to_nat (rounds (example_args 2)))%nat
  /\ count is_timed (events_since empty_world (snd run))
     = (Z.to_nat (rounds (example_args 2)) * Z.to_nat (iters (example_args 2)))%nat.
Proof.
  intros c run e.
  assert (Hrun : measure_case demo_host {["base" := []]} (example_args 2) c empty_world
                 = (Ok e, snd run)) by (vm_compute; reflexivity).
  split; [exact Hrun|].
  exact (proj2 warmup_before_each_round demo_host {["base" := []]} (example_args 2) c
           empty_world e (snd run) Hrun).
Defined.

(** ** No rounds *)

Lemma measure_case_zero_rounds H (datasets : gmap string DataFrame) a c df w :
  rounds a = 0 -> datasets !! dataset c = Some df ->
  measure_case H datasets a c w = (Ok (Entry (name c) (dataset c) Float.zero []), w).
Proof.
  intros Hr Hd. unfold measure_case. rewrite bind_run. unfold lift at 1. rewrite Hd, Hr.
  reflexivity.
Qed.

Lemma cases_loop_zero_rounds H (datasets : gmap string DataFrame) a (cs : list case) :
  rounds a = 0 ->
  Forall (fun c => is_Some (datasets !! dataset c)) cs ->
  forall acc w,
    for_each cs (case_body H datasets a) acc w
    = (Ok (acc ++ map (fun c => Entry (name c) (dataset c) Float.zero []) cs), w).
Proof.
  intros Hr Hall. induction Hall as [|c cs [df Hdf] _ IH]; intros acc w.
  - cbn. rewrite app_nil_r. reflexivity.
  - cbn [for_each map]. rewrite bind_run. unfold case_body at 1. rewrite bind_run.
    rewrite (measure_case_zero_rounds H datasets a c df w Hr Hdf).
    cbn [mret M_ret]. rewrite IH, <- app_assoc. reflexivity.
Qed.

Lemma datasets_cover H (base high_card missing : DataFrame) :
  Forall (fun c => is_Some ((<["missing" := missing]>
                            (<["high_card" := high_card]> (<["base" := base]> ∅))
                            : gmap string DataFrame) !! dataset c)) (cases H).
Proof. repeat constructor; eexists; reflexivity. Qed.

Lemma measurements_zero_rounds H a w :
  rounds a = 0 ->
  exists w1,
    measurements H a w
    = (Ok (map (fun c => Entry (name c) (dataset c) Float.zero []) (cases H)), w1)
    /\ log w1 = log w /\ calls w1 = calls w.
Proof.
  intros Hr. unfold measurements. rewrite !bind_run.
  destruct (build_dataset_run (rows a) false false false false w) as (base & -> & _).
  rewrite !bind_run.
  destruct (build_dataset_run (rows a) false false true false
              (World (cells w ++ [state_at 42 (2 * Z.to_nat (rows a))])
                     (calls w) (reads w) (log w))) as (high_card & -> & _).
  rewrite !bind_run. cbn [cells calls reads log].
  destruct (build_dataset_run (rows a) false false false true
              (World ((cells w ++ [state_at 42 (2 * Z.to_nat (rows a))])
                        ++ [state_at 42 (2 * Z.to_nat (rows a))])
                     (calls w) (reads w) (log w))) as (missing & -> & _).
  cbv zeta. rewrite (cases_loop_zero_rounds H _ a (cases H) Hr (datasets_cover H _ _ _)).
  eexists. split; [reflexivity|]. split; reflexivity.
Qed.

(** C10: [median] of the empty list is 0.0, so that a run with [rounds = 0]
    (and a writable output path) completes: it invokes no operation, and the
    payload it writes reports the robust average 0.0 and no round average
    for every case. *)
Theorem zero_rounds_complete H a w :
  rounds a = 0 ->
  writable H (json_out a) = true ->
  median [] = Ok Float.zero
  /\ exists w' p post,
       main H a w = (Ok tt, w')
       /\ events_since w w' = EvWrite (json_out a) p :: post
       /\ Forall (fun ev => is_write ev = false /\ is_call ev = false) post
       /\ p_rounds p = 0
       /\ map e_case (p_results p) = map name (cases H)
       /\ Forall (fun e => pandasAvgMs e = Float.zero /\ pandasRoundAverages e = [])
            (p_results p).
Proof.
  intros Hr Hw. split; [reflexivity|].
  destruct (measurements_zero_rounds H a w Hr) as (w1 & Hm & Hlog & _).
  rewrite main_eq, Hm, Hw.
  eexists _, _, _. split; [reflexivity|]. split.
  { apply events_since_app. cbn [log]. rewrite Hlog. reflexivity. }
  split.
  { apply Forall_forall. intros ev Hin.
    apply list_elem_of_In, in_map_iff in Hin as (l & <- & _). split; reflexivity. }
  cbn [payload_of p_rounds p_results]. split; [exact Hr|]. split.
  { rewrite map_map. reflexivity. }
  apply Forall_forall. intros e He.
  apply list_elem_of_In, in_map_iff in He as (c & <- & _). split; reflexivity.
Qed.

Lemma zero_rounds_complete_witness :
  rounds (example_args 0) = 0
  /\ writable demo_host (json_out (example_args 0)) = true
  /\ exists w' p post,
       main demo_host (example_args 0) empty_world = (Ok tt, w')
       /\ events_since empty_world w' = EvWrite (json_out (example_args 0)) p :: post
       /\ p_rounds p = 0
       /\ Forall (fun e => pandasAvgMs e = Float.zero /\ pandasRoundAverages e = [])
            (p_results p).
Proof.
  split; [reflexivity|]. split; [reflexivity|].
  destruct (zero_rounds_complete demo_host (example_args 0) empty_world eq_refl eq_refl)
    as (_ & w' & p & post & Hrun & Hev & _ & Hr & _ & Hall).
  exists w', p, post. repeat split; assumption.
Defined.

(** * Further properties of the datasets *)

(** ** Shape and columns *)

Lemma make_row_columns skew wide hc im idx value weight row :
  make_row skew wide hc im idx value weight = Ok row ->
  map fst row = base_columns ++ (if wide then extra_columns else [])
  /\ dict_get "active" row = Some (VBool (idx mod 3 =? 0))
  /\ dict_get "user_key" row
     = Some (VStr (if hc then "u_" +:+ str idx else "u_" +:+ str (idx mod 120)))
  /\ dict_get "session_key" row
     = Some (VStr (if hc then "s_" +:+ str (idx * 7) else "s_" +:+ str (idx mod 300)))
  /\ forall k, 0 <= k < 10 ->
       dict_get ("extra_" +:+ str k) row
       = if wide then Some (VInt ((value + k) mod (50 + k))) else None.
Proof.
  unfold make_row. intros Hrow.
  destruct (if skew && (idx mod 100 <? 70) then Ok "A"
            else getitem groups (idx mod len groups)) as [g|]; [|discriminate Hrow].
  destruct (if im && (idx mod 23 =? 0) then Ok VNone
            else VStr <$> getitem cities (idx mod len cities)) as [c|]; [|discriminate Hrow].
  destruct (if im && (idx mod 31 =? 0) then Ok VNone
            else VStr <$> getitem segments (idx mod len segments)) as [sg|];
    [|discriminate Hrow].
  destruct (mul_int_float value weight) as [p|]; [|discriminate Hrow].
  cbn [mbind result_bind] in Hrow. injection Hrow as <-.
  assert (Hk : forall k, 0 <= k < 10 ->
            k = 0 \/ k = 1 \/ k = 2 \/ k = 3 \/ k = 4 \/ k = 5 \/ k = 6 \/ k = 7 \/ k = 8 \/ k = 9)
    by (intros; lia).
  destruct wide.
  - repeat (split; [reflexivity|]). intros k Hr.
    destruct (Hk k Hr) as [->|[->|[->|[->|[->|[->|[->|[->|[->| ->]]]]]]]]]; reflexivity.
  - repeat (split; [reflexivity|]). intros k Hr.
    destruct (Hk k Hr) as [->|[->|[->|[->|[->|[->|[->|[->|[->| ->]]]]]]]]]; reflexivity.
Qed.

Lemma dataset_lookup row_count skew wide hc im w df w' (i : nat) row :
  build_dataset row_count skew wide hc im w = (Ok df, w') ->
  df !! i = Some row ->
  row_at skew wide hc im i = Ok row /\ (i < Z.to_nat row_count)%nat.
Proof.
  intros Hrun Hi. apply dataset_rows in Hrun.
  destruct (Forall2_lookup_r _ _ _ _ _ Hrun Hi) as (j & Hj & Hrow).
  apply lookup_seq in Hj as [-> Hlt]. split; assumption.
Qed.

(** X1: [build_dataset] returns as many rows as asked for, and none for a
    negative [row_count]; row [i] carries [id = i] and
    [active = (i % 3 == 0)]. *)
Theorem dataset_shape row_count skew wide hc im w df w' :
  build_dataset row_count skew wide hc im w = (Ok df, w') ->
  len df = Z.max row_count 0
  /\ forall (i : nat) row, df !! i = Some row ->
       dict_get "id" row = Some (VInt (Z.of_nat i))
       /\ dict_get "active" row = Some (VBool (Z.of_nat i mod 3 =? 0)).
Proof.
  intros Hrun. split.
  - pose proof (dataset_rows _ _ _ _ _ _ _ _ Hrun) as Hall.
    apply Forall2_length in Hall. rewrite length_seq in Hall. unfold len. lia.
  - intros i row Hi. destruct (dataset_lookup _ _ _ _ _ _ _ _ _ _ Hrun Hi) as [Hrow _].
    split.
    + apply make_row_fields in Hrow. apply Hrow.
    + apply make_row_columns in Hrow. apply Hrow.
Qed.

(** X2: the [value] of every row is an int with [0 <= value < 1000]. *)
Theorem value_in_range row_count skew wide hc im w df w' row :
  build_dataset row_count skew wide hc im w = (Ok df, w') ->
  row ∈ df ->
  exists value, dict_get "value" row = Some (VInt value) /\ 0 <= value < 1000.
Proof.
  intros Hrun Hin. destruct (dataset_row _ _ _ _ _ _ _ _ _ Hrun Hin) as (i & _ & Hrow).
  apply make_row_fields in Hrow as (_ & _ & _ & _ & Hv & _).
  eexists. split; [exact Hv|]. apply value_of_range, state_at_range.
Qed.

(** X3: every row has the eleven columns of the dict literal, in that order,
    followed when [wide] by [extra_0] to [extra_9], and no column twice;
    [extra_k] is [(value + k) % (50 + k)], an int in [0, 50 + k), and is
    absent without [wide]. *)
Theorem row_columns row_count skew wide hc im w df w' row :
  build_dataset row_count skew wide hc im w = (Ok df, w') ->
  row ∈ df ->
  map fst row = base_columns ++ (if wide then extra_columns else [])
  /\ NoDup (map fst row)
  /\ exists value, dict_get "value" row = Some (VInt value)
       /\ forall k, 0 <= k < 10 ->
            if wide
            then dict_get ("extra_" +:+ str k) row = Some (VInt ((value + k) mod (50 + k)))
                 /\ 0 <= (value + k) mod (50 + k) < 50 + k
            else dict_get ("extra_" +:+ str k) row = None.
Proof.
  intros Hrun Hin. destruct (dataset_row _ _ _ _ _ _ _ _ _ Hrun Hin) as (i & _ & Hrow).
  pose proof (make_row_columns _ _ _ _ _ _ _ _ Hrow) as (Hcols & _ & _ & _ & Hextra).
  apply make_row_fields in Hrow as (_ & _ & _ & _ & Hv & _).
  split; [exact Hcols|]. split.
  { rewrite Hcols. destruct wide; apply NoDup_ListNoDup; vm_compute;
      repeat (constructor; [cbn; intuition discriminate|]); constructor. }
  eexists. split; [exact Hv|]. intros k Hk. specialize (Hextra k Hk).
  destruct wide; [|exact Hextra]. split; [exact Hextra|].
  apply Z.mod_pos_bound. lia.
Qed.

(** ** Keys and variants *)

Lemma str_inj a b : str a = str b -> a = b.
Proof.
  unfold str. intros E. apply DecimalZ.to_int_inj.
  assert (Hnn : forall n, Z.to_int n <> Decimal.Pos Decimal.Nil
                          /\ Z.to_int n <> Decimal.Neg Decimal.Nil).
  { intros [|p|p]; cbn; split; try discriminate; intros [= Hp];
      exact (DecimalPos.Unsigned.to_uint_nonnil p Hp). }
  assert (Some (Z.to_int a) = Some (Z.to_int b)) as [= ->]; [|reflexivity].
  destruct (Hnn a) as [Ha1 Ha2], (Hnn b) as [Hb1 Hb2].
  rewrite <- (NilZero.isi _ Ha1 Ha2), <- (NilZero.isi _ Hb1 Hb2), E. reflexivity.
Qed.

(** X4: with [high_cardinality] two rows of a dataset have the same
    [user_key], or the same [session_key], only when they are the same row;
    without it the rows [i] and [j] share their [user_key] exactly when
    [i % 120 = j % 120] and their [session_key] exactly when
    [i % 300 = j % 300]. *)
Theorem key_cardinality row_count skew wide hc im w df w' (i j : nat) ri rj :
  build_dataset row_count skew wide hc im w = (Ok df, w') ->
  df !! i = Some ri -> df !! j = Some rj ->
  (dict_get "user_key" ri = dict_get "user_key" rj
   <-> if hc then i = j else Z.of_nat i mod 120 = Z.of_nat j mod 120)
  /\ (dict_get "session_key" ri = dict_get "session_key" rj
      <-> if hc then i = j else Z.of_nat i mod 300 = Z.of_nat j mod 300).
Proof.
  intros Hrun Hi Hj.
  destruct (dataset_lookup _ _ _ _ _ _ _ _ _ _ Hrun Hi) as [Hri _].
  destruct (dataset_lookup _ _ _ _ _ _ _ _ _ _ Hrun Hj) as [Hrj _].
  apply make_row_columns in Hri as (_ & _ & Hui & Hsi & _).
  apply make_row_columns in Hrj as (_ & _ & Huj & Hsj & _).
  rewrite Hui, Huj, Hsi, Hsj. destruct hc; split; split.
  - intros [= E]. apply str_inj in E. lia.
  - intros ->. reflexivity.
  - intros [= E]. apply str_inj in E. lia.
  - intros ->. reflexivity.
  - intros [= E]. apply str_inj in E. exact E.
  - intros ->. reflexivity.
  - intros [= E]. apply str_inj in E. exact E.
  - intros ->. reflexivity.
Qed.

(** X5: two datasets built with the same [row_count] have the same length
    and agree row by row on [id], [value], [weight], [revenue], [active] and
    [bucket], whatever their flags and whatever was built before them: the
    flags touch the other columns only. *)
Theorem variants_share_draws row_count
    skew wide hc im skew' wide' hc' im' w1 w2 df1 df2 w1' w2' :
  build_dataset row_count skew wide hc im w1 = (Ok df1, w1') ->
  build_dataset row_count skew' wide' hc' im' w2 = (Ok df2, w2') ->
  length df1 = length df2
  /\ forall (i : nat) r1 r2 col,
       df1 !! i = Some r1 -> df2 !! i = Some r2 -> In col shared_columns ->
       dict_get col r1 = dict_get col r2.
Proof.
  intros Hrun1 Hrun2. split.
  - pose proof (dataset_rows _ _ _ _ _ _ _ _ Hrun1) as H1.
    pose proof (dataset_rows _ _ _ _ _ _ _ _ Hrun2) as H2.
    apply Forall2_length in H1, H2. congruence.
  - intros i r1 r2 col Hi1 Hi2 Hcol.
    destruct (dataset_lookup _ _ _ _ _ _ _ _ _ _ Hrun1 Hi1) as [Hr1 _].
    destruct (dataset_lookup _ _ _ _ _ _ _ _ _ _ Hrun2 Hi2) as [Hr2 _].
    pose proof (make_row_columns _ _ _ _ _ _ _ _ Hr1) as (_ & Ha1 & _).
    pose proof (make_row_columns _ _ _ _ _ _ _ _ Hr2) as (_ & Ha2 & _).
    apply make_row_fields in Hr1 as (Hid1 & _ & _ & _ & Hv1 & Hw1 & (p1 & Hp1 & Hrev1) & Hb1).
    apply make_row_fields in Hr2 as (Hid2 & _ & _ & _ & Hv2 & Hw2 & (p2 & Hp2 & Hrev2) & Hb2).
    assert (p1 = p2) as -> by congruence.
    cbn in Hcol. destruct Hcol as [<-|[<-|[<-|[<-|[<-|[<-|[]]]]]]]; congruence.
Qed.

(** ** The weight column *)

Lemma shl_align_pos mx ex ez : ez <= ex ->
  Z.pos (fst (shl_align mx ex ez)) = Z.pos mx * 2 ^ (ex - ez).
Proof.
  intros Hle. unfold shl_align. destruct (ez - ex) as [|d|d] eqn:E; try lia.
  - replace (ex - ez) with 0 by lia. cbn [fst]. lia.
  - cbn [fst]. rewrite pos_iter_xO. replace (ex - ez) with (Z.pos d) by lia. reflexivity.
Qed.

Lemma add_finite m1 e1 m2 e2 :
  Float.add (S754_finite false m1 e1) (S754_finite false m2 e2)
  = binary_normalize 53 1024
      (Z.pos m1 * 2 ^ (e1 - Z.min e1 e2) + Z.pos m2 * 2 ^ (e2 - Z.min e1 e2))
      (Z.min e1 e2) false.
Proof.
  unfold Float.add, SFadd, Float.prec, Float.emax. cbn [cond_Zopp].
  rewrite !shl_align_pos by lia. reflexivity.
Qed.

Lemma binary_normalize_dyadic N j e :
  0 < N < 2 ^ 53 -> 0 <= j -> -1074 <= e + j - (52 - Z.log2 N) <= 971 ->
  binary_normalize 53 1024 (N * 2 ^ j) e false = dyadic N (e + j).
Proof.
  intros HN Hj He. pose proof (log2_lt_53 N HN) as Hl.
  destruct (dyadic_pos_facts N HN) as (Ha & Hpa & Hla & Hida).
  set (a := 52 - Z.log2 N) in *.
  assert (Hpj : 0 < 2 ^ j) by (apply Z.pow_pos_nonneg; lia).
  assert (Hm : 0 < N * 2 ^ j) by nia.
  assert (Hlm : Z.log2 (N * 2 ^ j) = Z.log2 N + j) by (rewrite Z.log2_mul_pow2; lia).
  destruct (N * 2 ^ j) as [|p|p] eqn:Hp; try lia.
  unfold binary_normalize, binary_round. rewrite digits2_pos_size.
  assert (Hs : Z.pos (Pos.size p) = Z.log2 (Z.pos p) + 1).
  { clear. destruct p; simpl; lia. }
  rewrite Hs, Hlm.
  replace (fexp 53 1024 (Z.log2 N + j + 1 + e)) with (e + j - a).
  2:{ unfold fexp, emin, a in *. lia. }
  unfold shl_align, dyadic. fold a.
  assert (Hl2 : Z.log2 (Z.pos p) = 52 + (j - a)) by (unfold a in *; lia).
  destruct (e + j - a - e) as [|d|d] eqn:Hd.
  - assert (Hja : j = a) by lia.
    rewrite (binary_round_aux_exact _ _ _ 0);
      [|lia|lia|lia|apply Z.mod_1_r|lia].
    rewrite Z.div_1_r, <- Hp, Hja. f_equal. lia.
  - assert (Hja : j = a + Z.pos d) by lia.
    assert (Hpd : 0 < 2 ^ Z.pos d) by (apply Z.pow_pos_nonneg; lia).
    assert (Hsplit : Z.pos p = N * 2 ^ a * 2 ^ Z.pos d).
    { rewrite <- Hp, Hja, Z.pow_add_r by lia. ring. }
    rewrite (binary_round_aux_exact _ _ _ (Z.pos d));
      [|lia|lia|lia|rewrite Hsplit; apply Z.mod_mul; lia|lia].
    rewrite Hsplit, Z.div_mul by lia. f_equal. lia.
  - assert (Haj : a = j + Z.pos d) by lia.
    assert (Hshift : Z.pos (Pos.iter xO p d) = N * 2 ^ a).
    { rewrite pos_iter_xO, <- Hp, Haj, Z.pow_add_r by lia. ring. }
    rewrite (binary_round_aux_exact _ _ _ 0);
      [|lia|rewrite Hshift, Hla; lia|lia|apply Z.mod_1_r|lia].
    rewrite Z.div_1_r, Hshift. f_equal. lia.
Qed.

Lemma add_half n : 0 < n < 2 ^ 35 ->
  Float.add (dyadic n (-32)) Float.half = dyadic (n + 2 ^ 31) (-32).
Proof.
  intros Hn. assert (Hn53 : 0 < n < 2 ^ 53) by lia.
  destruct (dyadic_pos_facts n Hn53) as (Ha & Hpa & Hla & Hida).
  assert (Hl35 : Z.log2 n < 35) by (apply Z.log2_lt_pow2; lia).
  unfold dyadic at 1, Float.half. rewrite add_finite.
  set (a := 52 - Z.log2 n) in *. rewrite Hida.
  set (ez := Z.min (-32 - a) (-53)).
  assert (Hez : ez <= -53 /\ ez <= -32 - a) by (unfold ez; lia).
  assert (H1 : n * 2 ^ a * 2 ^ (-32 - a - ez) = n * 2 ^ (-32 - ez)).
  { rewrite <- Z.mul_assoc, <- Z.pow_add_r by lia. do 2 f_equal. lia. }
  assert (H2 : 4503599627370496 * 2 ^ (-53 - ez) = 2 ^ 31 * 2 ^ (-32 - ez)).
  { change 4503599627370496 with (2 ^ 52). rewrite <- !Z.pow_add_r by lia. f_equal. lia. }
  change (Z.pos 4503599627370496) with 4503599627370496.
  rewrite H1, H2, <- Z.mul_add_distr_r.
  assert (HN : 2 ^ 31 < n + 2 ^ 31 < 2 ^ 36) by lia.
  assert (HlN : 31 <= Z.log2 (n + 2 ^ 31) < 36).
  { split; [apply Z.log2_le_pow2; lia | apply Z.log2_lt_pow2; lia]. }
  rewrite binary_normalize_dyadic; try lia.
  f_equal. lia.
Qed.

Lemma div_half_even_scale x y c : 0 < y -> 0 < c ->
  div_half_even (x * c) (y * c) = div_half_even x y.
Proof.
  intros Hy Hc. unfold div_half_even.
  rewrite Z.div_mul_cancel_r, Z.mul_mod_distr_r by lia.
  replace (2 * (x mod y * c)) with (2 * (x mod y) * c) by ring.
  assert (Hcmp : (2 * (x mod y) * c ?= y * c) = (2 * (x mod y) ?= y)).
  { destruct (Z.compare_spec (2 * (x mod y)) y) as [E|E|E].
    - rewrite E. apply Z.compare_refl.
    - apply Z.compare_lt_iff. nia.
    - apply Z.compare_gt_iff. nia. }
  rewrite Hcmp. reflexivity.
Qed.

Lemma div_half_even_bounds x y lo hi : 0 < y -> lo * y <= x < hi * y ->
  lo <= div_half_even x y <= hi.
Proof.
  intros Hy Hx. unfold div_half_even.
  assert (lo <= x / y) by (apply Z.div_le_lower_bound; lia).
  assert (x / y < hi) by (apply Z.div_lt_upper_bound; lia).
  destruct (2 * (x mod y) ?= y); [destruct (Z.even (x / y))|..]; lia.
Qed.

Lemma round_dyadic N : 2 ^ 31 <= N < 2 ^ 36 ->
  round (dyadic N (-32)) 2 = centi (div_half_even (N * 100) (2 ^ 32)).
Proof.
  intros HN. assert (HN53 : 0 < N < 2 ^ 53) by lia.
  destruct (dyadic_pos_facts N HN53) as (Ha & Hpa & Hla & Hida).
  pose proof (div_half_even_bounds (N * 100) (2 ^ 32) 50 6401 ltac:(lia) ltac:(lia)) as Hk.
  unfold round, dyadic, centi. set (a := 52 - Z.log2 N) in *. rewrite Hida.
  replace (0 <=? -32 - a) with false by (symmetry; apply Z.leb_gt; lia).
  replace (- (-32 - a)) with (32 + a) by lia.
  rewrite Z.pow_add_r by lia. change (10 ^ 2) with 100.
  replace (N * 2 ^ a * 100) with (N * 100 * 2 ^ a) by ring.
  rewrite div_half_even_scale by (try apply Z.pow_pos_nonneg; lia).
  destruct (div_half_even (N * 100) (2 ^ 32)) as [|kp|kp]; try lia. reflexivity.
Qed.

Lemma weight_of_centi s : 0 <= s < 2 ^ 32 ->
  exists k, 50 <= k <= 550 /\ weight_of s = centi k.
Proof.
  intros Hs. unfold weight_of, unit_float. destruct (Z.eqb_spec s 0) as [->|Hne].
  - exists 50. split; [lia|]. vm_compute. reflexivity.
  - rewrite mul_dyadic by lia. rewrite add_half by lia.
    rewrite round_dyadic by lia.
    exists (div_half_even ((s * 5 + 2 ^ 31) * 100) (2 ^ 32)). split; [|reflexivity].
    apply div_half_even_bounds; lia.
Qed.

Lemma centi_bounds k : 50 <= k <= 550 -> weight_bounds (centi k) = true.
Proof.
  intros Hk.
  assert (Hall : forallb (fun i => weight_bounds (centi (50 + Z.of_nat i))) (seq 0 501) = true)
    by (vm_compute; reflexivity).
  rewrite forallb_forall in Hall. specialize (Hall (Z.to_nat (k - 50))).
  replace (50 + Z.of_nat (Z.to_nat (k - 50))) with k in Hall by lia.
  apply Hall, in_seq. lia.
Qed.

(** X6: the [weight] of every row is a number of hundredths between 0.50 and
    5.50: the float that [round] returns for [k / 100] with
    [50 <= k <= 550], and it lies in [0.5, 5.5]. *)
Theorem weight_in_range row_count skew wide hc im w df w' row :
  build_dataset row_count skew wide hc im w = (Ok df, w') ->
  row ∈ df ->
  exists k, 50 <= k <= 550
    /\ dict_get "weight" row = Some (VFloat (centi k))
    /\ (1 # 2 <= Float.to_Q (centi k) <= 11 # 2)%Q.
Proof.
  intros Hrun Hin. destruct (dataset_row _ _ _ _ _ _ _ _ _ Hrun Hin) as (i & _ & Hrow).
  apply make_row_fields in Hrow as (_ & _ & _ & _ & _ & Hw & _).
  destruct (weight_of_centi (state_at 42 (2 * i + 2)) (state_at_range _ _)) as (k & Hk & E).
  exists k. split; [exact Hk|]. split; [rewrite Hw, E; reflexivity|].
  pose proof (centi_bounds k Hk) as Hb. unfold weight_bounds in Hb.
  apply andb_true_iff in Hb as [H1 H2]. split; apply Qle_bool_iff; assumption.
Qed.

(** * Further properties of the generator *)

Lemma lcg_next_inj s t :
  0 <= s < 2 ^ 32 -> 0 <= t < 2 ^ 32 -> lcg_next s = lcg_next t -> s = t.
Proof.
  unfold lcg_next. intros Hs Ht E.
  pose proof (Z.div_mod (1664525 * s + 1013904223) (2 ^ 32) ltac:(lia)) as Ds.
  pose proof (Z.div_mod (1664525 * t + 1013904223) (2 ^ 32) ltac:(lia)) as Dt.
  rewrite E in Ds.
  set (qs := (1664525 * s + 1013904223) / 2 ^ 32) in *.
  set (qt := (1664525 * t + 1013904223) / 2 ^ 32) in *.
  assert (Hd : s - t = 2 ^ 32 * (4276115653 * (qs - qt) - 1657219 * (s - t))) by lia.
  lia.
Qed.

Lemma unit_float_inj s t :
  0 <= s < 2 ^ 32 -> 0 <= t < 2 ^ 32 -> unit_float s = unit_float t -> s = t.
Proof.
  intros Hs Ht E.
  destruct (unit_float_value s Hs) as [_ Qs], (unit_float_value t Ht) as [_ Qt].
  rewrite E, Qt in Qs. unfold Qeq in Qs. cbn [Qnum Qden] in Qs. lia.
Qed.

Lemma lcg_draws_run seed (n : nat) w :
  (gen ← lcg seed; draws gen n) w =
    (Ok (map (fun k => unit_float (state_at seed (S k))) (seq 0 n)),
     World (cells w ++ [state_at seed n]) (calls w) (reads w) (log w)).
Proof.
  unfold lcg, draws. rewrite !bind_run. unfold new_cell.
  cbn [mret M_ret]. rewrite land_mask.
  rewrite (draws_loop (length (cells w)) seed n 0 []).
  - cbn [cells calls reads log app Nat.add].
    rewrite insert_app_r_alt by lia. rewrite Nat.sub_diag. reflexivity.
  - cbn [cells]. rewrite lookup_app_r by lia. rewrite Nat.sub_diag. reflexivity.
Qed.

Lemma state_at_wrap seed k n : state_at (seed + k * 2 ^ 32) n = state_at seed n.
Proof. unfold state_at. rewrite Z.mod_add by lia. reflexivity. Qed.

(** X7: only the low 32 bits of the seed count: [lcg(seed + k * 2**32)]
    returns the floats of [lcg(seed)] and leaves the same state, for negative
    seeds too. *)
Theorem seed_wraps seed k (n : nat) w :
  (gen ← lcg (seed + k * 2 ^ 32); draws gen n) w = (gen ← lcg seed; draws gen n) w.
Proof.
  rewrite !lcg_draws_run, state_at_wrap. do 2 f_equal.
  apply map_ext. intros i. rewrite state_at_wrap. reflexivity.
Qed.

Lemma lcg_run seed w :
  lcg seed w = (Ok (rnd (length (cells w))),
                World (cells w ++ [seed mod 2 ^ 32]) (calls w) (reads w) (log w)).
Proof. unfold lcg. rewrite bind_run. unfold new_cell. rewrite land_mask. reflexivity. Qed.

Lemma draws_loop_any loc seed (xs : list nat) : forall (a : nat) acc w,
  cells w !! loc = Some (state_at seed a) ->
  for_each xs (fun _ ys => x ← rnd loc; mret (ys ++ [x])) acc w =
    (Ok (acc ++ map (fun i => unit_float (state_at seed (S i))) (seq a (length xs))),
     World (<[loc := state_at seed (a + length xs)]> (cells w)) (calls w) (reads w) (log w)).
Proof.
  induction xs as [|x xs IH]; intros a acc w Hc.
  - cbn. rewrite app_nil_r, Nat.add_0_r, list_insert_id by assumption.
    destruct w; reflexivity.
  - cbn [length seq for_each map]. rewrite !bind_run, (rnd_run _ _ _ Hc).
    cbn [mret M_ret]. rewrite <- state_at_S. rewrite (IH (S a)).
    + cbn [cells calls reads log]. rewrite list_insert_insert_eq, <- app_assoc.
      replace (S a + length xs)%nat with (a + S (length xs))%nat by lia. reflexivity.
    + cbn [cells]. apply list_lookup_insert_eq. eapply lookup_lt_Some; eassumption.
Qed.

Lemma draws_from loc seed (n a : nat) w :
  cells w !! loc = Some (state_at seed a) ->
  draws (rnd loc) n w =
    (Ok (map (fun i => unit_float (state_at seed (S i))) (seq a n)),
     World (<[loc := state_at seed (a + n)]> (cells w)) (calls w) (reads w) (log w)).
Proof.
  intros Hc. unfold draws. rewrite (draws_loop_any loc seed (seq 0 n) a [] w Hc).
  rewrite length_seq. reflexivity.
Qed.

(** X8: every call of [lcg] makes a generator with a state of its own:
    the floats drawn from one generator, before and after another generator
    was drawn from, are the floats it returns when drawn from alone. *)
Theorem generators_independent seed1 seed2 (n m k : nat) w :
  fst ((g1 ← lcg seed1; g2 ← lcg seed2;
        xs ← draws g1 n; ys ← draws g2 m; zs ← draws g1 k;
        mret (xs ++ zs, ys)) w)
  = Ok (map (fun i => unit_float (state_at seed1 (S i))) (seq 0 (n + k)),
        map (fun i => unit_float (state_at seed2 (S i))) (seq 0 m)).
Proof.
  rewrite bind_run, lcg_run, bind_run, lcg_run. cbn [cells calls reads log].
  set (l1 := length (cells w)).
  assert (Hl2 : length (cells w ++ [seed1 mod 2 ^ 32]) = S l1)
    by (rewrite length_app; cbn; lia).
  rewrite Hl2, bind_run.
  rewrite (draws_from l1 seed1 n 0).
  2:{ cbn [cells]. rewrite lookup_app_l by lia.
      rewrite lookup_app_r by lia. unfold l1. rewrite Nat.sub_diag. reflexivity. }
  rewrite bind_run. cbn [cells calls reads log Nat.add].
  rewrite (draws_from (S l1) seed2 m 0).
  2:{ cbn [cells]. rewrite list_lookup_insert_ne by lia.
      rewrite lookup_app_r by lia. rewrite Hl2, Nat.sub_diag. reflexivity. }
  rewrite bind_run. cbn [cells calls reads log Nat.add].
  rewrite (draws_from l1 seed1 k n).
  2:{ cbn [cells]. rewrite list_lookup_insert_ne by lia.
      apply list_lookup_insert_eq. rewrite length_app. cbn. lia. }
  cbn [mret M_ret fst]. rewrite seq_app, map_app. reflexivity.
Qed.

(** ** The period of the generator *)

Lemma iter_lcg_next (n : nat) s :
  Nat.iter n lcg_next (s mod 2 ^ 32)
  = (s + geom n * (1664524 * s + 1013904223)) mod 2 ^ 32.
Proof.
  induction n as [|n IH].
  - change (geom 0) with 0. change (Nat.iter 0 lcg_next ?x) with x.
    rewrite Z.mul_0_l, Z.add_0_r. reflexivity.
  - rewrite Nat.iter_succ, IH. cbn [geom]. unfold lcg_next.
    rewrite Z.add_mod, Z.mul_mod_idemp_r, <- Z.add_mod by lia. f_equal. ring.
Qed.

Lemma geom_add (n m : nat) : geom (n + m) = geom n + 1664525 ^ Z.of_nat n * geom m.
Proof.
  induction n as [|n IH].
  - cbn [Nat.add geom Z.of_nat]. lia.
  - cbn [Nat.add geom]. rewrite IH, Nat2Z.inj_succ, Z.pow_succ_r by lia. ring.
Qed.

Lemma pow_mod_4 (n : nat) : exists t, 1664525 ^ Z.of_nat n = 1 + 4 * t.
Proof.
  induction n as [|n [t IH]].
  - exists 0. reflexivity.
  - rewrite Nat2Z.inj_succ, Z.pow_succ_r, IH by lia.
    exists (416131 + 1664525 * t). ring.
Qed.

Lemma geom_parity (n : nat) : exists t, geom n = Z.of_nat n + 2 * t.
Proof.
  induction n as [|n [t IH]].
  - exists 0. reflexivity.
  - cbn [geom]. rewrite IH, Nat2Z.inj_succ.
    exists (832262 * Z.of_nat n + 1664525 * t). ring.
Qed.

Lemma pow2_succ (k : nat) : 2 ^ Z.of_nat (S k) = 2 * 2 ^ Z.of_nat k.
Proof. rewrite Nat2Z.inj_succ, Z.pow_succ_r by lia. reflexivity. Qed.

Lemma odd_not_divide (k : nat) x t : x = 1 + 2 * t -> ~ (2 ^ Z.of_nat (S k) | x).
Proof.
  intros -> [z Hz]. rewrite pow2_succ in Hz. lia.
Qed.

Lemma geom_divide (k : nat) : forall (n : nat) q t, q = 1 + 2 * t ->
  (2 ^ Z.of_nat k | geom n * q) <-> (2 ^ Z.of_nat k | Z.of_nat n).
Proof.
  induction k as [|k IH]; intros n q t Hq.
  - cbn [Z.of_nat]. change (2 ^ 0) with 1. split; intros _; apply Z.divide_1_l.
  - destruct (Nat.Even_or_Odd n) as [[m ->]|[m ->]].
    + replace (2 * m)%nat with (m + m)%nat by lia. rewrite geom_add.
      destruct (pow_mod_4 m) as [u ->].
      replace ((geom m + (1 + 4 * u) * geom m) * q)
        with (2 * (geom m * ((1 + 2 * u) * q))) by ring.
      replace (Z.of_nat (m + m)) with (2 * Z.of_nat m) by lia.
      rewrite pow2_succ, !Z.mul_divide_cancel_l by lia.
      apply (IH m _ (u + t + 2 * u * t)). rewrite Hq. ring.
    + destruct (geom_parity (2 * m + 1)) as [u Hu]. split; intros Hd; exfalso.
      * apply (odd_not_divide k _ (Z.of_nat m + u + t + 2 * (Z.of_nat m + u) * t)) in Hd;
          [exact Hd|]. rewrite Hu, Hq. lia.
      * apply (odd_not_divide k _ (Z.of_nat m)) in Hd; [exact Hd|]. lia.
Qed.

Lemma return_time s (d : nat) : 0 <= s < 2 ^ 32 ->
  Nat.iter d lcg_next s = s <-> (2 ^ 32 | Z.of_nat d).
Proof.
  intros Hs. rewrite <- (Z.mod_small s (2 ^ 32)) at 1 by assumption.
  rewrite iter_lcg_next.
  rewrite <- (geom_divide 32 d (1664524 * s + 1013904223) (832262 * s + 506952111)) by ring.
  change (2 ^ Z.of_nat 32) with (2 ^ 32).
  rewrite <- (Z.mod_small s (2 ^ 32)) at 3 by assumption.
  rewrite Z.cong_iff_0, <- Z.mod_divide by lia.
  replace (s + geom d * (1664524 * s + 1013904223) - s)
    with (geom d * (1664524 * s + 1013904223)) by ring.
  reflexivity.
Qed.

Lemma iter_lcg_next_range (n : nat) s : 0 <= s < 2 ^ 32 -> 0 <= Nat.iter n lcg_next s < 2 ^ 32.
Proof. intros Hs. destruct n; [exact Hs | rewrite Nat.iter_succ; apply lcg_next_range]. Qed.

Lemma iter_lcg_next_inj (n : nat) s t :
  0 <= s < 2 ^ 32 -> 0 <= t < 2 ^ 32 ->
  Nat.iter n lcg_next s = Nat.iter n lcg_next t -> s = t.
Proof.
  intros Hs Ht. induction n as [|n IH]; [trivial|].
  rewrite !Nat.iter_succ. intros E. apply IH.
  apply lcg_next_inj; [apply iter_lcg_next_range; assumption..|exact E].
Qed.

Lemma state_at_period_le seed (n d : nat) :
  state_at seed (n + d) = state_at seed n <-> (2 ^ 32 | Z.of_nat d).
Proof.
  assert (H0 : 0 <= seed mod 2 ^ 32 < 2 ^ 32) by (apply Z.mod_pos_bound; lia).
  unfold state_at. rewrite Nat.iter_add, <- (return_time _ d H0). split.
  - apply iter_lcg_next_inj; [apply iter_lcg_next_range|]; assumption.
  - intros ->. reflexivity.
Qed.

Lemma divide_cong x y : (2 ^ 32 | y - x) <-> x mod 2 ^ 32 = y mod 2 ^ 32.
Proof.
  rewrite <- Z.mod_divide, <- Z.cong_iff_0 by lia. split; intros E; symmetry; exact E.
Qed.

Lemma state_at_period seed (n m : nat) :
  state_at seed n = state_at seed m
  <-> Z.of_nat n mod 2 ^ 32 = Z.of_nat m mod 2 ^ 32.
Proof.
  destruct (Nat.le_ge_cases n m) as [Hle|Hle].
  - replace m with (n + (m - n))%nat at 1 by lia.
    rewrite <- divide_cong. replace (Z.of_nat m - Z.of_nat n) with (Z.of_nat (m - n)) by lia.
    rewrite <- (state_at_period_le seed n (m - n)). split; intros E; rewrite E; reflexivity.
  - replace n with (m + (n - m))%nat at 1 by lia.
    rewrite (state_at_period_le seed m (n - m)).
    replace (Z.of_nat (n - m)) with (Z.of_nat n - Z.of_nat m) by lia.
    rewrite divide_cong. split; intros E; rewrite E; reflexivity.
Qed.

Lemma draw_eq_iff seed (i j : nat) :
  unit_float (state_at seed (S i)) = unit_float (state_at seed (S j))
  <-> Z.of_nat i mod 2 ^ 32 = Z.of_nat j mod 2 ^ 32.
Proof.
  assert (Hshift : Z.of_nat (S i) mod 2 ^ 32 = Z.of_nat (S j) mod 2 ^ 32
                   <-> Z.of_nat i mod 2 ^ 32 = Z.of_nat j mod 2 ^ 32).
  { rewrite <- !divide_cong.
    replace (Z.of_nat (S j) - Z.of_nat (S i)) with (Z.of_nat j - Z.of_nat i) by lia.
    reflexivity. }
  rewrite <- Hshift, <- state_at_period. split.
  - apply unit_float_inj; apply state_at_range.
  - intros ->. reflexivity.
Qed.

(** X9: a generator returns a float at every call, and it has period 2^32:
    the floats of the calls [i] and [j] are equal exactly when [i] and [j]
    are congruent modulo 2^32, so that no float comes twice within 2^32
    calls. *)
Theorem lcg_full_period seed (n : nat) w :
  exists xs,
    fst ((gen ← lcg seed; draws gen n) w) = Ok xs
    /\ length xs = n
    /\ forall (i j : nat) x y, xs !! i = Some x -> xs !! j = Some y ->
         (x = y <-> Z.of_nat i mod 2 ^ 32 = Z.of_nat j mod 2 ^ 32).
Proof.
  rewrite lcg_draws_run. cbn [fst]. eexists. split; [reflexivity|]. split.
  - rewrite length_map, length_seq. reflexivity.
  - intros i j x y Hi Hj.
    apply list_lookup_fmap_Some in Hi as (i' & -> & Hi).
    apply list_lookup_fmap_Some in Hj as (j' & -> & Hj).
    apply lookup_seq in Hi as [-> _]. apply lookup_seq in Hj as [-> _].
    apply draw_eq_iff.
Qed.

(** * Further properties of the harness *)

(** ** The round average *)

Lemma truediv_by_zero x : truediv_float_int x 0 = Raise ZeroDivisionError.
Proof. reflexivity. Qed.

Lemma truediv_ok x n : 0 < n < 2 ^ 53 ->
  truediv_float_int x n = Ok (Float.div x (dyadic n 0)).
Proof.
  intros Hn. unfold truediv_float_int. rewrite float_of_int_dyadic by assumption.
  reflexivity.
Qed.

Lemma truediv_raise x n e : truediv_float_int x n = Raise e ->
  (e = ZeroDivisionError \/ e = OverflowError) /\ ~ 0 < n < 2 ^ 53.
Proof.
  intros E. split.
  - unfold truediv_float_int, float_of_int in E.
    destruct (binary_normalize Float.prec Float.emax n 0 false) as [s|s| |s m ex];
      cbn [mbind result_bind] in E; unfold float_truediv, Float.is_zero in E;
      try discriminate E; injection E as <-; auto.
  - intros Hn. rewrite truediv_ok in E by assumption. discriminate E.
Qed.



Lemma run_case_raise H name f iterations w e w' :
  run_case H name (invoke f) iterations w = (Raise e, w') ->
  measure_error [name] iterations e.
Proof.
  rewrite run_case_eq.
  destruct (first_none f (calls w + 3) (Z.to_nat iterations)) as [j|].
  - intros [= <- _]. right. exists name. split; [left|]; reflexivity.
  - intros [= E _]. left. apply truediv_raise in E as [He Hn]. split; [exact He|].
    intros Hit. apply Hn. lia.
Qed.

(** X10: with [iterations <= 0], [run_case] invokes the operation three
    times as warmup, reads no clock and raises [ZeroDivisionError] from
    [sum(times) / len(times)], whatever the operation returns. *)
Theorem run_case_no_iterations H name f iterations w :
  iterations <= 0 ->
  run_case H name (invoke f) iterations w
  = (Raise ZeroDivisionError,
     World (cells w) (calls w + 3) (reads w) (log w ++ warm_events name f (calls w))).
Proof.
  intros Hit. rewrite run_case_eq.
  assert (Hn : Z.to_nat iterations = 0%nat) by lia. rewrite Hn.
  cbn [first_none times_ms timed_events Z.of_nat]. rewrite truediv_by_zero.
  rewrite app_nil_r, !Nat.add_0_r. reflexivity.
Qed.

(** ** What a run logs and how it can fail *)

Lemma confined_ret P Q {A} (a : A) : confined P Q (mret a).
Proof.
  intros w. exists []. cbn. rewrite app_nil_r. split; [reflexivity|].
  split; [constructor | discriminate].
Qed.

Lemma confined_lift P Q {A} (r : result A) :
  (forall e, r = Raise e -> Q e) -> confined P Q (lift r).
Proof.
  intros Hr w. exists []. cbn. rewrite app_nil_r. split; [reflexivity|].
  split; [constructor | exact Hr].
Qed.

Lemma confined_bind P Q {A B} (c : M A) (f : A -> M B) :
  confined P Q c -> (forall a, confined P Q (f a)) -> confined P Q (c ≫= f).
Proof.
  intros Hc Hf w. destruct (Hc w) as (evs1 & Hl1 & Hp1 & He1).
  rewrite bind_run. destruct (c w) as [[a|e] w1]; cbn [fst snd] in *.
  - destruct (Hf a w1) as (evs2 & Hl2 & Hp2 & He2). exists (evs1 ++ evs2).
    rewrite Hl2, Hl1, app_assoc. split; [reflexivity|].
    split; [apply Forall_app; split; assumption | exact He2].
  - exists evs1. split; [exact Hl1|]. split; [exact Hp1|].
    intros e0 [= <-]. apply He1. reflexivity.
Qed.

Lemma confined_for_each P Q {A S} (xs : list A) (body : A -> S -> M S) :
  (forall x s, In x xs -> confined P Q (body x s)) ->
  forall s, confined P Q (for_each xs body s).
Proof.
  induction xs as [|x xs IH]; intros Hb s.
  - apply confined_ret.
  - cbn [for_each]. apply confined_bind; [apply Hb; left; reflexivity|].
    intros s'. apply IH. intros y t Hy. apply Hb. right. exact Hy.
Qed.

Lemma confined_weaken (P P' : event -> Prop) (Q Q' : exn -> Prop) {A} (c : M A) :
  (forall ev, P ev -> P' ev) -> (forall e, Q e -> Q' e) ->
  confined P Q c -> confined P' Q' c.
Proof.
  intros HP HQ Hc w. destruct (Hc w) as (evs & Hl & Hp & He).
  exists evs. split; [exact Hl|]. split.
  - eapply Forall_impl; [exact Hp | exact HP].
  - intros e E. apply HQ, He, E.
Qed.

Lemma runs_silent name f ev : runs name f ev -> silent ev.
Proof. destruct ev; cbn; intros Hr; try contradiction; split; reflexivity. Qed.

Lemma timed_events_runs H name f c r k : Forall (runs name f) (timed_events H name f c r k).
Proof.
  revert c r. induction k as [|k IH]; intros c r; cbn [timed_events].
  - constructor.
  - constructor; [exact I|]. constructor; [split; [reflexivity | exists c; reflexivity]|].
    constructor; [exact I | apply IH].
Qed.

Lemma warm_events_runs name f c : Forall (runs name f) (warm_events name f c).
Proof. repeat constructor; eexists; reflexivity. Qed.

Lemma measure_error_incl cs cs' iterations e :
  (forall nm, In nm cs -> In nm cs') ->
  measure_error cs iterations e -> measure_error cs' iterations e.
Proof.
  intros Hin [He|(nm & Hnm & He)]; [left; exact He|].
  right. exists nm. split; [apply Hin; exact Hnm | exact He].
Qed.

Lemma confined_run_case H name f iterations :
  confined (runs name f) (measure_error [name] iterations)
    (run_case H name (invoke f) iterations).
Proof.
  intros w.
  assert (Hraise : forall e, fst (run_case H name (invoke f) iterations w) = Raise e ->
            measure_error [name] iterations e).
  { intros e E. destruct (run_case H name (invoke f) iterations w) as [r w'] eqn:Hrun.
    cbn [fst] in E. subst r. exact (run_case_raise _ _ _ _ _ _ _ Hrun). }
  revert Hraise. rewrite run_case_eq.
  destruct (first_none f (calls w + 3) (Z.to_nat iterations)) as [j|] eqn:Hfn; intros Hraise.
  - exists (warm_events name f (calls w)
            ++ timed_events H name f (calls w + 3) (reads w) j
            ++ [EvClock (perf_counter_at H (reads w + 2 * j)); EvCall Timed name None]).
    split; [reflexivity|]. split; [|exact Hraise].
    apply Forall_app. split; [apply warm_events_runs|].
    apply Forall_app. split; [apply timed_events_runs|].
    constructor; [exact I|]. constructor; [|constructor].
    split; [reflexivity|]. exists (calls w + 3 + j)%nat.
    symmetry. apply (first_none_Some _ _ _ _ Hfn).
  - exists (warm_events name f (calls w)
            ++ timed_events H name f (calls w + 3) (reads w) (Z.to_nat iterations)).
    split; [reflexivity|]. split; [|exact Hraise].
    apply Forall_app. split; [apply warm_events_runs | apply timed_events_runs].
Qed.

Lemma median_total values : exists x, median values = Ok x.
Proof.
  destruct values as [|v vs]; [eexists; reflexivity|].
  pose proof (sorted_perm (v :: vs)) as Hperm.
  assert (Hmed : median (v :: vs) =
    let s := sorted (v :: vs) in
    if len s mod 2 =? 1 then getitem s (len s / 2)
    else a ← getitem s (len s / 2 - 1); b ← getitem s (len s / 2);
         float_truediv (Float.add a b) Float.two) by reflexivity.
  rewrite Hmed. clear Hmed. cbv zeta.
  assert (Hpos : 0 < len (sorted (v :: vs))).
  { unfold len. rewrite <- (Permutation_length Hperm). cbn [length]. lia. }
  set (s := sorted (v :: vs)) in *. clearbody s.
  pose proof (Z.div_mod (len s) 2 ltac:(lia)) as Hdm.
  pose proof (Z.mod_pos_bound (len s) 2 ltac:(lia)) as Hmb.
  destruct (Z.eqb_spec (len s mod 2) 1) as [Hodd|Heven].
  - destruct (getitem_ok s (len s / 2)) as (x & _ & Hg); [lia|].
    exists x. exact Hg.
  - destruct (getitem_ok s (len s / 2 - 1)) as (x & _ & Hgx); [lia|].
    destruct (getitem_ok s (len s / 2)) as (y & _ & Hgy); [lia|].
    rewrite Hgx, Hgy. eexists. reflexivity.
Qed.

Lemma confined_measure_case H (datasets : gmap string DataFrame) a c df :
  datasets !! dataset c = Some df ->
  confined (runs (name c) (fn c df)) (measure_error [name c] (iters a))
    (measure_case H datasets a c).
Proof.
  intros Hdf. unfold measure_case. rewrite Hdf.
  assert (Hrest : confined (runs (name c) (fn c df)) (measure_error [name c] (iters a))
            (round_averages ← for_each (range (rounds a)) (round_body H a c df) [];
             avg_ms ← lift (median round_averages);
             mret (Entry (name c) (dataset c) avg_ms round_averages))).
  { apply confined_bind.
    - apply confined_for_each. intros x ras _. unfold round_body.
      apply confined_bind; [apply confined_run_case|]. intros avg. apply confined_ret.
    - intros ras. apply confined_bind; [|intros avg; apply confined_ret].
      apply confined_lift. intros e E. destruct (median_total ras) as [x Hx].
      rewrite Hx in E. discriminate E. }
  intros w. exact (Hrest w).
Qed.

(** The events of the loop over the cases [cs]: each belongs to one of the
    cases, run on the dataset registered for it. *)
Lemma confined_cases_loop H (datasets : gmap string DataFrame) a (cs : list case) :
  Forall (fun c => is_Some (datasets !! dataset c)) cs ->
  forall acc,
    confined
      (fun ev => exists c df, In c cs /\ datasets !! dataset c = Some df
                              /\ runs (name c) (fn c df) ev)
      (measure_error (map name cs) (iters a))
      (for_each cs (case_body H datasets a) acc).
Proof.
  intros Hall. apply confined_for_each. intros c results Hc. unfold case_body.
  apply confined_bind; [|intros e; apply confined_ret].
  rewrite Forall_forall in Hall. destruct (Hall c) as [df Hdf]; [apply list_elem_of_In, Hc|].
  apply (confined_weaken (runs (name c) (fn c df)) _ (measure_error [name c] (iters a))).
  - intros ev Hev. exists c, df. repeat split; assumption.
  - intros e. apply measure_error_incl. intros nm [<-|[]]. apply in_map. exact Hc.
  - apply confined_measure_case. exact Hdf.
Qed.

Lemma build_dataset_example n skew wide hc im w :
  build_dataset n skew wide hc im w
  = (Ok (example_rows n skew wide hc im),
     World (cells w ++ [state_at 42 (2 * Z.to_nat n)]) (calls w) (reads w) (log w)).
Proof.
  destruct (build_dataset_run n skew wide hc im w) as (rows & Hr & Hall).
  destruct (build_dataset_run n skew wide hc im empty_world) as (rows0 & Hr0 & Hall0).
  unfold example_rows. rewrite Hr0, Hr. cbn [fst]. do 2 f_equal.
  eapply Forall2_unique; [exact Hall | exact Hall0|].
  intros i r1 r2. apply row_at_unique.
Qed.

Lemma datasets_lookup H n c :
  In c (cases H) ->
  (<["missing" := variant n "missing"]>
     (<["high_card" := variant n "high_card"]>
        (<["base" := variant n "base"]> ∅)) : gmap string DataFrame) !! dataset c
  = Some (variant n (dataset c)).
Proof.
  intros Hc. unfold cases in Hc. cbn [In] in Hc.
  repeat (destruct Hc as [<-|Hc]; [reflexivity|]). destruct Hc.
Qed.

Lemma cases_fn H c : In c (cases H) -> fn c = pandas H (name c).
Proof.
  intros Hc. unfold cases in Hc. cbn [In] in Hc.
  repeat (destruct Hc as [<-|Hc]; [reflexivity|]). destruct Hc.
Qed.

Lemma confined_measurements H a :
  confined
    (fun ev => exists c, In c (cases H)
                         /\ runs (name c) (fn c (variant (rows a) (dataset c))) ev)
    (measure_error (map name (cases H)) (iters a))
    (measurements H a).
Proof.
  intros w. unfold measurements. rewrite !bind_run, build_dataset_example.
  rewrite !bind_run, build_dataset_example. rewrite !bind_run, build_dataset_example.
  cbv zeta.
  change (example_rows (rows a) false false false false) with (variant (rows a) "base").
  change (example_rows (rows a) false false true false) with (variant (rows a) "high_card").
  change (example_rows (rows a) false false false true) with (variant (rows a) "missing").
  match goal with
  | |- context [for_each (cases H) (case_body H ?d a) [] ?w0] =>
      destruct (confined_cases_loop H d a (cases H) (datasets_cover H _ _ _) [] w0)
        as (evs & Hlog & Hev & Herr)
  end.
  exists evs. split; [exact Hlog|]. split; [|exact Herr].
  eapply Forall_impl; [exact Hev|]. intros ev (c & df & Hc & Hdf & Hruns).
  exists c. split; [exact Hc|].
  rewrite (datasets_lookup H (rows a) c Hc) in Hdf. injection Hdf as <-. exact Hruns.
Qed.

Lemma measurements_silent H a w :
  exists evs,
    log (snd (measurements H a w)) = (log w ++ evs)
    /\ Forall silent evs
    /\ forall e, fst (measurements H a w) = Raise e ->
         measure_error (map name (cases H)) (iters a) e.
Proof.
  destruct (confined_measurements H a w) as (evs & Hlog & Hev & Herr).
  exists evs. split; [exact Hlog|]. split; [|exact Herr].
  eapply Forall_impl; [exact Hev|]. intros ev (c & _ & Hruns).
  exact (runs_silent _ _ _ Hruns).
Qed.

(** ** Runs without iterations *)



(** ** Runs that complete *)

Section Completes.

Variable H : host.
Variable a : args.
Hypothesis Hit : 0 < iters a < 2 ^ 53.





End Completes.



(** X14: every invocation a run makes, warmup or timed, in a run that
    completes or fails, is the operation of a registered case, applied to the
    dataset registered under the [dataset] key of that case:
    [build_dataset(rows)] for base, with [high_cardinality] for high_card and
    with [include_missing] for missing, never skewed or wide. *)
Theorem cases_run_on_their_datasets H a w r w' ph nm out :
  main H a w = (r, w') ->
  In (EvCall ph nm out) (events_since w w') ->
  exists c idx,
    In c (cases H) /\ name c = nm
    /\ out = pandas H nm (variant (rows a) (dataset c)) idx.
Proof.
  rewrite main_eq. destruct (confined_measurements H a w) as (evs & Hlog & Hev & _).
  assert (Hevs : In (EvCall ph nm out) evs ->
            exists c idx, In c (cases H) /\ name c = nm
              /\ out = pandas H nm (variant (rows a) (dataset c)) idx).
  { intros Hin. rewrite Forall_forall in Hev.
    destruct (Hev _ (proj2 (list_elem_of_In _ _) Hin)) as (c & Hc & -> & idx & ->).
    exists c, idx. split; [exact Hc|]. split; [reflexivity|].
    rewrite (cases_fn H c Hc). reflexivity. }
  destruct (measurements H a w) as [[results|e1] w1]; cbn [fst snd] in *.
  - destruct (writable H (json_out a)); intros [= <- <-].
    + rewrite (events_since_app w _ (evs ++ EvWrite (json_out a) (payload_of H a results)
                                       :: map EvPrint (report_lines H a results))).
      2:{ cbn [log]. rewrite Hlog, <- app_assoc. reflexivity. }
      intros Hin. apply in_app_or in Hin as [Hin|Hin]; [exact (Hevs Hin)|].
      exfalso. destruct Hin as [E|Hin]; [discriminate|].
      apply in_map_iff in Hin as (l & E & _). discriminate.
    + rewrite (events_since_app _ _ _ Hlog). exact Hevs.
  - intros [= <- <-]. rewrite (events_since_app _ _ _ Hlog). exact Hevs.
Qed.

(** ** The median splits the list *)

Lemma count_perm {A} (f : A -> bool) l l' : Permutation l l' -> count f l = count f l'.
Proof.
  induction 1 as [|x l l' _ IH|x y l|l l' l'' _ IH1 _ IH2]; cbn [count].
  - reflexivity.
  - rewrite IH. reflexivity.
  - destruct (f x), (f y); reflexivity.
  - congruence.
Qed.

Lemma count_prefix {A} (f : A -> bool) (l : list A) : forall k : nat,
  (k <= length l)%nat ->
  (forall (i : nat) y, (i < k)%nat -> l !! i = Some y -> f y = true) ->
  (k <= count f l)%nat.
Proof.
  induction l as [|x l IH]; intros k Hk Hall; [cbn in Hk; lia|].
  destruct k as [|k]; [lia|]. cbn [count length] in *.
  rewrite (Hall 0%nat x) by (lia || reflexivity).
  assert (k <= count f l)%nat; [|lia].
  apply IH; [lia|]. intros i y Hi Hy. apply (Hall (S i) y); [lia | exact Hy].
Qed.

Lemma count_suffix {A} (f : A -> bool) (l : list A) : forall k : nat,
  (forall (i : nat) y, (k <= i)%nat -> l !! i = Some y -> f y = true) ->
  (length l - k <= count f l)%nat.
Proof.
  induction l as [|x l IH]; intros k Hall; [cbn; lia|].
  destruct k as [|k].
  - cbn [count length]. rewrite (Hall 0%nat x) by (lia || reflexivity).
    assert (length l - 0 <= count f l)%nat; [|lia].
    apply IH. intros i y _ Hy. apply (Hall (S i) y); [lia | exact Hy].
  - cbn [count length].
    assert (length l - k <= count f l)%nat; [|destruct (f x); lia].
    apply IH. intros i y Hi Hy. apply (Hall (S i) y); [lia | exact Hy].
Qed.

Lemma strongly_sorted_lookup {A} (R : A -> A -> Prop) (l : list A) :
  StronglySorted R l ->
  forall (i j : nat) a b, (i < j)%nat -> l !! i = Some a -> l !! j = Some b -> R a b.
Proof.
  induction 1 as [|x l _ IH Hx]; intros i j a b Hij Hi Hj; [discriminate Hi|].
  destruct j as [|j]; [lia|]. cbn in Hj. destruct i as [|i].
  - injection Hi as <-. rewrite Forall_forall in Hx.
    apply Hx. eapply list_elem_of_lookup_2. exact Hj.
  - cbn in Hi. apply (IH i j); [lia|assumption..].
Qed.

Lemma fle_refl x : fle x x.
Proof.
  unfold fle, Float.ltb, SFltb, SFcompare.
  destruct x as [[]| [] | |[] m e]; try reflexivity;
    rewrite Z.compare_refl, ?Pos.compare_cont_refl, ?Pos.compare_refl; reflexivity.
Qed.

Lemma fleb_fle x y : fle x y -> fleb x y = true.
Proof. unfold fle, fleb. intros ->. reflexivity. Qed.

(** X15: for an odd number of values, none of them NaN, [median] returns one
    of the values, and more than half of the values are [<=] it and more
    than half are [>=] it. *)
Theorem median_splits values :
  Forall (fun y => Float.is_nan y = false) values ->
  len values mod 2 = 1 ->
  exists x,
    median values = Ok x
    /\ In x values
    /\ (length values < 2 * count (fun y => fleb y x) values)%nat
    /\ (length values < 2 * count (fun y => fleb x y) values)%nat.
Proof.
  intros Hnan Hodd.
  pose proof (sorted_perm values) as Hperm.
  pose proof (sorted_strongly_sorted values Hnan) as Hsorted.
  assert (Hmed : median values = getitem (sorted values) (len (sorted values) / 2)).
  { destruct values as [|v vs]; [discriminate Hodd|].
    assert (Hodd' : (len (sorted (v :: vs)) mod 2 =? 1) = true).
    { unfold len in *. rewrite <- (Permutation_length Hperm). apply Z.eqb_eq, Hodd. }
    unfold median. cbv zeta. rewrite Hodd'. reflexivity. }
  assert (Hlen : length (sorted values) = length values)
    by (symmetry; apply Permutation_length, Hperm).
  set (s := sorted values) in *. clearbody s.
  pose proof (Z.div_mod (len values) 2 ltac:(lia)) as Hdm.
  assert (Hls : len s = len values) by (unfold len; lia).
  destruct (getitem_ok s (len s / 2)) as (x & Hx & Hg).
  { rewrite Hls. unfold len in *. lia. }
  exists x. split; [rewrite Hmed; exact Hg|].
  set (m := Z.to_nat (len s / 2)) in *.
  assert (Hm : length values = (2 * m + 1)%nat).
  { unfold m. rewrite Hls. unfold len in *. lia. }
  split; [|split].
  - apply (Permutation_in _ (Permutation_sym Hperm)).
    apply list_elem_of_In. eapply list_elem_of_lookup_2. exact Hx.
  - rewrite (count_perm _ _ _ Hperm).
    assert (S m <= count (fun y => fleb y x) s)%nat; [|lia].
    apply count_prefix; [lia|]. intros i y Hi Hy. apply fleb_fle.
    destruct (Nat.eq_dec i m) as [->|Hne].
    + assert (y = x) by congruence. subst y. apply fle_refl.
    + apply (strongly_sorted_lookup fle s Hsorted i m); [lia|assumption..].
  - rewrite (count_perm _ _ _ Hperm).
    assert (length s - m <= count (fun y => fleb x y) s)%nat; [|lia].
    apply count_suffix. intros i y Hi Hy. apply fleb_fle.
    destruct (Nat.eq_dec i m) as [->|Hne].
    + assert (y = x) by congruence. subst y. apply fle_refl.
    + apply (strongly_sorted_lookup fle s Hsorted m i); [lia|assumption..].
Qed.

Lemma median_splits_witness :
  let values := [float_lit 3; float_lit 1; float_lit 2] in
  Forall (fun y => Float.is_nan y = false) values
  /\ len values mod 2 = 1
  /\ exists x,
       median values = Ok x
       /\ In x values
       /\ (length values < 2 * count (fun y => fleb y x) values)%nat
       /\ (length values < 2 * count (fun y => fleb x y) values)%nat.
Proof.
  intros values.
  assert (Hnan : Forall (fun y => Float.is_nan y = false) values)
    by (repeat constructor).
  assert (Hodd : len values mod 2 = 1) by reflexivity.
  split; [exact Hnan|]. split; [exact Hodd|].
  exact (median_splits values Hnan Hodd).
Defined.

(** X16: a run that completes makes its measurements, then writes one
    payload, holding the three arguments as given, [cases = 10] and the
    results, and only then prints the report: 15 lines, computed from the
    results of the payload. *)
Theorem report_follows_payload H a w w' :
  main H a w = (Ok tt, w') ->
  exists pre results,
    events_since w w'
    = pre ++ EvWrite (json_out a)
               (Payload (utc_now H) (rows a) (iters a) (rounds a) 10 results)
          :: map EvPrint (report_lines H a results)
    /\ Forall (fun ev => is_write ev = false /\ is_print ev = false) pre
    /\ length (report_lines H a results) = 15%nat.
Proof.
  rewrite main_eq. destruct (measurements_silent H a w) as (evs & Hlog & Hev & _).
  destruct (measurements H a w) as [[results|e] w1] eqn:Hm; [|discriminate].
  cbn [fst snd] in *. destruct (writable H (json_out a)); [|discriminate].
  intros [= <-]. apply measurements_ok in Hm as (Hn & _ & _).
  assert (Hlen : length results = 10%nat).
  { rewrite <- (length_map e_case), Hn, length_map. reflexivity. }
  exists evs, results. split; [|split; [exact Hev|]].
  - apply events_since_app. cbn [log]. rewrite Hlog, <- app_assoc.
    unfold payload_of, report_lines, len. rewrite Hlen. reflexivity.
  - unfold report_lines. rewrite length_app, length_map, Hlen. reflexivity.
Qed.

(** ** Examples *)

Lemma dataset_shape_witness :
  let df := example_rows 3 false false false false in
  let w' := snd (build_dataset 3 false false false false empty_world) in
  build_dataset 3 false false false false empty_world = (Ok df, w')
  /\ len df = Z.max 3 0
  /\ forall (i : nat) row, df !! i = Some row ->
       dict_get "id" row = Some (VInt (Z.of_nat i))
       /\ dict_get "active" row = Some (VBool (Z.of_nat i mod 3 =? 0)).
Proof.
  intros df w'.
  assert (Hrun : build_dataset 3 false false false false empty_world = (Ok df, w'))
    by (vm_compute; reflexivity).
  split; [exact Hrun|].
  exact (dataset_shape 3 false false false false empty_world df w' Hrun).
Defined.

Lemma value_in_range_witness :
  let df := example_rows 3 false false false false in
  let w' := snd (build_dataset 3 false false false false empty_world) in
  let row := default [] (df !! 1%nat) in
  build_dataset 3 false false false false empty_world = (Ok df, w')
  /\ row ∈ df
  /\ exists value, dict_get "value" row = Some (VInt value) /\ 0 <= value < 1000.
Proof.
  intros df w' row.
  assert (Hrun : build_dataset 3 false false false false empty_world = (Ok df, w'))
    by (vm_compute; reflexivity).
  assert (Hin : row ∈ df)
    by (apply list_elem_of_lookup; exists 1%nat; vm_compute; reflexivity).
  split; [exact Hrun|]. split; [exact Hin|].
  exact (value_in_range 3 false false false false empty_world df w' row Hrun Hin).
Defined.

Lemma weight_in_range_witness :
  let df := example_rows 3 false false false false in
  let w' := snd (build_dataset 3 false false false false empty_world) in
  let row := default [] (df !! 1%nat) in
  build_dataset 3 false false false false empty_world = (Ok df, w')
  /\ row ∈ df
  /\ exists k, 50 <= k <= 550
       /\ dict_get "weight" row = Some (VFloat (centi k))
       /\ (1 # 2 <= Float.to_Q (centi k) <= 11 # 2)%Q.
Proof.
  intros df w' row.
  assert (Hrun : build_dataset 3 false false false false empty_world = (Ok df, w'))
    by (vm_compute; reflexivity).
  assert (Hin : row ∈ df)
    by (apply list_elem_of_lookup; exists 1%nat; vm_compute; reflexivity).
  split; [exact Hrun|]. split; [exact Hin|].
  exact (weight_in_range 3 false false false false empty_world df w' row Hrun Hin).
Defined.

Lemma row_columns_witness :
  let df := example_rows 2 false true false false in
  let w' := snd (build_dataset 2 false true false false empty_world) in
  let row := default [] (df !! 1%nat) in
  build_dataset 2 false true false false empty_world = (Ok df, w')
  /\ row ∈ df
  /\ map fst row = base_columns ++ extra_columns
  /\ NoDup (map fst row).
Proof.
  intros df w' row.
  assert (Hrun : build_dataset 2 false true false false empty_world = (Ok df, w'))
    by (vm_compute; reflexivity).
  assert (Hin : row ∈ df)
    by (apply list_elem_of_lookup; exists 1%nat; vm_compute; reflexivity).
  split; [exact Hrun|]. split; [exact Hin|].
  destruct (row_columns 2 false true false false empty_world df w' row Hrun Hin)
    as (Hcols & Hnd & _).
  split; assumption.
Defined.

Lemma key_cardinality_witness :
  let df := example_rows 3 false false true false in
  let w' := snd (build_dataset 3 false false true false empty_world) in
  let ri := default [] (df !! 0%nat) in
  let rj := default [] (df !! 2%nat) in
  build_dataset 3 false false true false empty_world = (Ok df, w')
  /\ df !! 0%nat = Some ri /\ df !! 2%nat = Some rj
  /\ (dict_get "user_key" ri = dict_get "user_key" rj <-> 0%nat = 2%nat)
  /\ (dict_get "session_key" ri = dict_get "session_key" rj <-> 0%nat = 2%nat).
Proof.
  intros df w' ri rj.
  assert (Hrun : build_dataset 3 false false true false empty_world = (Ok df, w'))
    by (vm_compute; reflexivity).
  assert (Hi : df !! 0%nat = Some ri) by (vm_compute; reflexivity).
  assert (Hj : df !! 2%nat = Some rj) by (vm_compute; reflexivity).
  split; [exact Hrun|]. split; [exact Hi|]. split; [exact Hj|].
  exact (key_cardinality 3 false false true false empty_world df w' 0 2 ri rj Hrun Hi Hj).
Defined.

Lemma variants_share_draws_witness :
  let df1 := example_rows 3 false false false false in
  let df2 := example_rows 3 true true true true in
  let w1' := snd (build_dataset 3 false false false false empty_world) in
  let w2' := snd (build_dataset 3 true true true true empty_world) in
  build_dataset 3 false false false false empty_world = (Ok df1, w1')
  /\ build_dataset 3 true true true true empty_world = (Ok df2, w2')
  /\ length df1 = length df2
  /\ forall (i : nat) r1 r2 col,
       df1 !! i = Some r1 -> df2 !! i = Some r2 -> In col shared_columns ->
       dict_get col r1 = dict_get col r2.
Proof.
  intros df1 df2 w1' w2'.
  assert (Hrun1 : build_dataset 3 false false false false empty_world = (Ok df1, w1'))
    by (vm_compute; reflexivity).
  assert (Hrun2 : build_dataset 3 true true true true empty_world = (Ok df2, w2'))
    by (vm_compute; reflexivity).
  split; [exact Hrun1|]. split; [exact Hrun2|].
  exact (variants_share_draws 3 false false false false true true true true
           empty_world empty_world df1 df2 w1' w2' Hrun1 Hrun2).
Defined.

Lemma run_case_no_iterations_witness :
  0 <= 0
  /\ run_case demo_host "groupby_mean" (invoke (fun _ => Some 5)) 0 empty_world
     = (Raise ZeroDivisionError,
        World [] 3 0 (warm_events "groupby_mean" (fun _ => Some 5) 0)).
Proof.
  assert (Hit : 0 <= 0) by lia.
  split; [exact Hit|].
  exact (run_case_no_iterations demo_host "groupby_mean" (fun _ => Some 5) 0 empty_world Hit).
Defined.




Lemma report_follows_payload_witness :
  let w' := snd (main demo_host (example_args 1) empty_world) in
  main demo_host (example_args 1) empty_world = (Ok tt, w')
  /\ exists pre results,
       events_since empty_world w'
       = pre ++ EvWrite (json_out (example_args 1))
                  (Payload (utc_now demo_host) (rows (example_args 1))
                     (iters (example_args 1)) (rounds (example_args 1)) 10 results)
             :: map EvPrint (report_lines demo_host (example_args 1) results)
       /\ Forall (fun ev => is_write ev = false /\ is_print ev = false) pre
       /\ length (report_lines demo_host (example_args 1) results) = 15%nat.
Proof.
  intros w'.
  assert (Hrun : main demo_host (example_args 1) empty_world = (Ok tt, w'))
    by (vm_compute; reflexivity).
  split; [exact Hrun|].
  exact (report_follows_payload demo_host (example_args 1) empty_world w' Hrun).
Defined.

Lemma cases_run_on_their_datasets_witness :
  let run := main demo_host (example_args 1) empty_world in
  main demo_host (example_args 1) empty_world = (fst run, snd run)
  /\ In (EvCall Warmup "groupby_mean" (Some 5)) (events_since empty_world (snd run))
  /\ exists c idx,
       In c (cases demo_host) /\ name c = "groupby_mean"
       /\ Some 5 = pandas demo_host "groupby_mean"
                     (variant (rows (example_args 1)) (dataset c)) idx.
Proof.
  intros run.
  assert (Hrun : main demo_host (example_args 1) empty_world = (fst run, snd run))
    by (unfold run; destruct (main _ _ _); reflexivity).
  assert (Hin : In (EvCall Warmup "groupby_mean" (Some 5))
                  (events_since empty_world (snd run)))
    by (vm_compute; left; reflexivity).
  split; [exact Hrun|]. split; [exact Hin|].
  exact (cases_run_on_their_datasets demo_host (example_args 1) empty_world
           (fst run) (snd run) Warmup "groupby_mean" (Some 5) Hrun Hin).
Defined.
